(** * Training-graph compilation driver

    A shallow embedding of [bin/compile-train-graphs-fsts.cc]: the program
    that reads a keyed archive of per-utterance grammar transducers, has a
    [TrainingGraphCompiler] turn each of them into a decoding graph and
    writes the graphs, under the same keys, to an output archive.

    The driver is embedded as it is written: the set-up part of [main] as a
    cascade of early exits, the [batch_size == 1] loop as a traversal of the
    input archive, the batched loop as a [while] loop that is run with fuel,
    because nothing in the code bounds the number of its iterations. *)

From Stdlib Require Import ZArith String Bool Lia QArith List.
Import ListNotations.
Local Open Scope Z_scope.

(** ** Transducers

    [fst::VectorFst<fst::StdArc>] as the driver sees it: a start state, which
    is [kNoStateId] when there is none, and a vector of states.  Tropical
    weights are floats in the library; they are exact rationals here and the
    driver never looks at them.  A state that is not final has no final
    weight. *)

Module Fst.

Definition StateId := Z.
Definition Label := Z.

Definition kNoStateId : StateId := -1.

Record StdArc := mkArc {
  ilabel : Label;
  olabel : Label;
  weight : Q;
  nextstate : StateId
}.

Record VectorState := mkVState {
  final : option Q;
  arcs : list StdArc
}.

Record VectorFst := mkFst {
  Start : StateId;
  states : list VectorState
}.

(** A default-constructed [VectorFst]. *)
Definition empty_fst : VectorFst := {| Start := kNoStateId; states := [] |}.

Definition NumStates (f : VectorFst) : Z := Z.of_nat (length (states f)).

(** [VectorFst::DeleteStates()]: drops every state and resets the start
    state. *)
Definition DeleteStates (f : VectorFst) : VectorFst :=
  {| Start := kNoStateId; states := [] |}.

(** The start state of a transducer built through the library's interface
    is [kNoStateId] or one of its states. *)
Definition well_formed (f : VectorFst) : Prop :=
  Start f = kNoStateId \/ 0 <= Start f < NumStates f.

Definition has_start (f : VectorFst) : bool := negb (Start f =? kNoStateId).

End Fst.

Import Fst.

(** ** Machine integers

    [batch_size] is an [int32] and the two counters are [int].  A value
    that leaves the range wraps around: the conversions from [size_t] do,
    and the overflow of [++], which the language leaves open, is taken to do
    the same. *)

Definition INT32_MIN : Z := - 2 ^ 31.
Definition INT32_MAX : Z := 2 ^ 31 - 1.

Definition int32_wrap (z : Z) : Z := (z + 2 ^ 31) mod 2 ^ 32 - 2 ^ 31.

Definition is_int32 (z : Z) : Prop := INT32_MIN <= z <= INT32_MAX.

(** ** The compiler object

    [TrainingGraphCompiler] is declared in
    [decoder/training-graph-compiler.h]; the driver uses two of its methods.
    Each returns its success flag together with what it stored through its
    output pointer. *)

Record Compiler := mkCompiler {
  CompileGraph : VectorFst -> bool * VectorFst;
  CompileGraphs : list VectorFst -> bool * list VectorFst
}.

(** Modelled from the spec: the methods of [TrainingGraphCompiler], whose
    definitions are in no file of [src/].  A failed [CompileGraph] hands back
    an empty graph, and [CompileGraphs] succeeds with, element by element and
    in the same order, the graphs that [CompileGraph] produces. *)
Record compiler_contract (gc : Compiler) : Prop := {
  failure_is_empty :
    forall g, fst (CompileGraph gc g) = false ->
              snd (CompileGraph gc g) = empty_fst;
  batch_is_elementwise :
    forall gs, CompileGraphs gc gs =
               (true, map (fun g => snd (CompileGraph gc g)) gs)
}.

(** ** Driver state *)

Abbreviation Entry := (string * VectorFst)%type.

Inductive LogLine :=
| WarnNoDisambig
| WarnProblem (key : string)
| LogSummary (succeeded failed : Z).

(** [fst_reader] holds the entries of the input archive that have not been
    consumed ([Done()] is true when it is empty, [Next()] drops the first
    one); [fst_writer] holds the entries written so far, oldest first. *)
Record DriverState := mkState {
  fst_reader : list Entry;
  fst_writer : list Entry;
  num_succeed : Z;
  num_fail : Z;
  log : list LogLine
}.

Definition initial_state (archive : list Entry) (log0 : list LogLine)
  : DriverState :=
  {| fst_reader := archive; fst_writer := []; num_succeed := 0;
     num_fail := 0; log := log0 |}.

Definition reader_Next (st : DriverState) : DriverState :=
  {| fst_reader := tl (fst_reader st); fst_writer := fst_writer st;
     num_succeed := num_succeed st; num_fail := num_fail st;
     log := log st |}.

(** ** The loop for [batch_size == 1] *)

Section Loops.

Variable gc : Compiler.

(** The body of the [for] loop, lines 126-138, for the current entry. *)
Definition sequential_body (key : string) (grammar : VectorFst)
           (st : DriverState) : DriverState :=
  let (ok, compiled) := CompileGraph gc grammar in
  let decode_fst := if ok then compiled else DeleteStates compiled in
  let log' := if ok then log st else log st ++ [WarnProblem key] in
  let succeeded := negb (Start decode_fst =? kNoStateId) in
  {| fst_reader := fst_reader st;
     fst_writer := fst_writer st ++ [(key, decode_fst)];
     num_succeed := if succeeded then int32_wrap (num_succeed st + 1)
                    else num_succeed st;
     num_fail := if succeeded then num_fail st
                 else int32_wrap (num_fail st + 1);
     log := log' |}.

(** [for (; !fst_reader.Done(); fst_reader.Next())], by recursion on the
    entries that are left, which [rd] repeats. *)
Fixpoint sequential_loop (rd : list Entry) (st : DriverState)
  : DriverState :=
  match rd with
  | [] => st
  | (key, grammar) :: rd' =>
      sequential_loop rd' (reader_Next (sequential_body key grammar st))
  end.

(** ** The batched loop *)

Variable batch_size : Z.

(** The inner [for] loop, lines 146-151: entries are taken while there are
    any and the batch is not full.  The result is the two vectors and the
    reader's position. *)
Fixpoint fill_batch (rd : list Entry) (keys : list string)
         (grammars : list VectorFst)
  : list string * list VectorFst * list Entry :=
  match rd with
  | [] => (keys, grammars, rd)
  | (key, value) :: rd' =>
      if int32_wrap (Z.of_nat (length grammars)) <? batch_size
      then fill_batch rd' (keys ++ [key]) (grammars ++ [value])
      else (keys, grammars, rd)
  end.

Inductive Fault :=
| KaldiError      (* KALDI_ERR: an exception, caught at the end of main *)
| AssertFailure.  (* assert, compiled in: abort() *)

Inductive Step :=
| Continue (st : DriverState)
| Die (f : Fault) (st : DriverState).

(** The body of the [while] loop, lines 144-161.  Once the assertion has
    passed the two vectors have the same length, and the [for] loop over
    [i] writes them pairwise. *)
Definition batch_body (st : DriverState) : Step :=
  let '(keys, grammars, rd') := fill_batch (fst_reader st) [] [] in
  let st1 := {| fst_reader := rd'; fst_writer := fst_writer st;
                num_succeed := num_succeed st; num_fail := num_fail st;
                log := log st |} in
  let (ok, fsts) := CompileGraphs gc grammars in
  if negb ok then Die KaldiError st1
  else if negb (Nat.eqb (length fsts) (length keys))
  then Die AssertFailure st1
  else Continue
         {| fst_reader := rd';
            fst_writer := fst_writer st ++ combine keys fsts;
            num_succeed :=
              int32_wrap (num_succeed st + Z.of_nat (length fsts));
            num_fail := num_fail st;
            log := log st |}.

(** [while (!fst_reader.Done()) { ... }].  [None] means that the fuel ran
    out before the loop was left. *)
Fixpoint batch_loop (fuel : nat) (st : DriverState)
  : option (Fault * DriverState + DriverState) :=
  match fuel with
  | O => None
  | S fuel' =>
      match fst_reader st with
      | [] => Some (inr st)
      | _ :: _ =>
          match batch_body st with
          | Continue st' => batch_loop fuel' st'
          | Die f st' => Some (inl (f, st'))
          end
      end
  end.

(** Lines 123-163. *)
Definition compile_all (fuel : nat) (st : DriverState)
  : option (Fault * DriverState + DriverState) :=
  if batch_size =? 1
  then Some (inr (sequential_loop (fst_reader st) st))
  else batch_loop fuel st.

End Loops.

(** ** [main] *)

Record TrainingGraphCompilerOptions := mkOptions {
  trans_prob_scale : Q;
  self_loop_scale : Q
}.

(** What [po.Read] found on the command line: the value of each option that
    was given and the positional arguments. *)
Record CommandLine := mkCommandLine {
  opt_transition_scale : option Q;
  opt_self_loop_scale : option Q;
  opt_batch_size : option Z;
  opt_read_disambig_syms : option string;
  positional : list string
}.

Definition or_default {A : Type} (given : option A) (default : A) : A :=
  match given with
  | Some v => v
  | None => default
  end.

(** Lines 50-54: the values the driver gives its variables before the
    options are registered. *)
Definition default_gopts : TrainingGraphCompilerOptions :=
  {| trans_prob_scale := 0; self_loop_scale := 0 |}.

Definition default_batch_size : Z := 250.

Definition gopts_of (cl : CommandLine) : TrainingGraphCompilerOptions :=
  {| trans_prob_scale :=
       or_default (opt_transition_scale cl) (trans_prob_scale default_gopts);
     self_loop_scale :=
       or_default (opt_self_loop_scale cl) (self_loop_scale default_gopts) |}.

Definition batch_size_of (cl : CommandLine) : Z :=
  or_default (opt_batch_size cl) default_batch_size.

Definition disambig_rxfilename_of (cl : CommandLine) : string :=
  or_default (opt_read_disambig_syms cl) EmptyString.

Definition NumArgs (cl : CommandLine) : nat := length (positional cl).

(** [po.GetArg(i)], numbered from one. *)
Definition GetArg (cl : CommandLine) (i : nat) : string :=
  nth (i - 1) (positional cl) EmptyString.

Inductive Termination :=
| Return (code : Z)   (* main returns *)
| Exit (code : Z)     (* exit() is called *)
| Abort.              (* abort() is called *)

(** The status the parent process sees; a process killed by [abort] is
    reported as 128 + SIGABRT. *)
Definition exit_status (t : Termination) : Z :=
  match t with
  | Return code => code mod 256
  | Exit code => code mod 256
  | Abort => 134
  end.

(** How the run ended and the state of the two tables then; [None] when the
    run ended before they were opened. *)
Record Outcome := mkOutcome {
  how : Termination;
  tables : option DriverState
}.

Definition log_summary (st : DriverState) : DriverState :=
  {| fst_reader := fst_reader st; fst_writer := fst_writer st;
     num_succeed := num_succeed st; num_fail := num_fail st;
     log := log st ++ [LogSummary (num_succeed st) (num_fail st)] |}.

(** Lines 164-169 and the two ways a loop is left early: [KALDI_ERR] throws,
    and the handler of [main] returns -1; a failed [assert] aborts. *)
Definition finish (r : Fault * DriverState + DriverState) : Outcome :=
  match r with
  | inr st => {| how := Return 0; tables := Some (log_summary st) |}
  | inl (KaldiError, st) => {| how := Return (-1); tables := Some st |}
  | inl (AssertFailure, st) => {| how := Abort; tables := Some st |}
  end.

Section Main.

Variables ContextDependency TransitionModel : Type.

(** The constructor of the compiler, line 114. *)
Variable TrainingGraphCompiler :
  TransitionModel -> ContextDependency -> VectorFst -> list Z ->
  TrainingGraphCompilerOptions -> Compiler.

(** Modelled from the spec: what the readers of [util/] and [tree/] and the
    macros of [base/kaldi-error.h], none of them under [src/], do with a
    resource that cannot be read: the tree and model readers throw,
    [KALDI_ERR] throws, [KALDI_EXIT] leaves with status 1.  The record holds
    the files the run reads, by name; the two archives are taken to open. *)
Record FileSystem := mkFileSystem {
  read_tree : string -> option ContextDependency;
  read_model : string -> option TransitionModel;
  ifstream_good : string -> bool;
  VectorFst_Read : string -> option VectorFst;
  ReadIntegerVectorSimple : string -> option (list Z);
  read_archive : string -> list Entry
}.

Definition early (t : Termination) : option Outcome :=
  Some {| how := t; tables := None |}.

(** Lines 104-108: the symbols are read only when a file was named. *)
Definition read_disambig_syms (fs : FileSystem) (cl : CommandLine)
  : option (list Z) :=
  if String.eqb (disambig_rxfilename_of cl) EmptyString then Some []
  else ReadIntegerVectorSimple fs (disambig_rxfilename_of cl).

(** Lines 66-116: everything before the two tables are opened.  The
    result is the way the run ends there, or the compiler object, the log
    so far and the input archive. *)
Definition setup (fs : FileSystem) (cl : CommandLine)
  : Termination + Compiler * list LogLine * list Entry :=
  if negb (Nat.eqb (NumArgs cl) 5) then inl (Exit 1) else
  let tree_rxfilename := GetArg cl 1 in
  let model_rxfilename := GetArg cl 2 in
  let lex_rxfilename := GetArg cl 3 in
  let fsts_rspecifier := GetArg cl 4 in
  match read_tree fs tree_rxfilename with
  | None => inl (Return (-1))
  | Some ctx_dep =>
  match read_model fs model_rxfilename with
  | None => inl (Return (-1))
  | Some trans_model =>
  if negb (ifstream_good fs lex_rxfilename) then inl (Exit 1) else
  match VectorFst_Read fs lex_rxfilename with
  | None => inl (Exit 1)
  | Some lex_fst =>
  match read_disambig_syms fs cl with
  | None => inl (Return (-1))
  | Some disambig_syms =>
      let log0 := match disambig_syms with
                  | [] => [WarnNoDisambig]
                  | _ :: _ => []
                  end in
      let gc := TrainingGraphCompiler trans_model ctx_dep lex_fst
                                      disambig_syms (gopts_of cl) in
      inr (gc, log0, read_archive fs fsts_rspecifier)
  end end end end.

(** [None] means that the fuel ran out in the batched loop. *)
Definition main (fuel : nat) (fs : FileSystem) (cl : CommandLine)
  : option Outcome :=
  match setup fs cl with
  | inl t => early t
  | inr (gc, log0, archive) =>
      option_map finish
        (compile_all gc (batch_size_of cl) fuel
           (initial_state archive log0))
  end.

End Main.

Arguments read_tree {ContextDependency TransitionModel}.
Arguments read_model {ContextDependency TransitionModel}.
Arguments ifstream_good {ContextDependency TransitionModel}.
Arguments VectorFst_Read {ContextDependency TransitionModel}.
Arguments ReadIntegerVectorSimple {ContextDependency TransitionModel}.
Arguments read_archive {ContextDependency TransitionModel}.

(** ** Weights of the topology inserter

    The HMM Topology Inserter is not among the sources either.  The
    transition model gives every transition-id a self-loop and a forward
    probability; they are costs here, since the tropical semiring adds costs
    along a path and its identity is cost zero. *)

Module Topology.

Definition One : Q := 0%Q.
Definition Times (a b : Q) : Q := (a + b)%Q.

Record TransitionEntry := mkEntry {
  phone : Z;
  self_loop_cost : Q;
  forward_cost : Q
}.

(** Modelled from the spec: the weight the HMM Topology Inserter, which is
    not under [src/], puts on the self-loop of a transition-id: the cost the
    transition model gives it, multiplied by the self-loop scale before it
    enters the graph. *)
Definition self_loop_weight (o : TrainingGraphCompilerOptions)
           (e : TransitionEntry) : Q :=
  (self_loop_scale o * self_loop_cost e)%Q.

(** Modelled from the spec: the weight the inserter adds to the forward
    arc of a transition-id, the cost of the transition multiplied by the
    transition scale. *)
Definition forward_weight (o : TrainingGraphCompilerOptions)
           (e : TransitionEntry) : Q :=
  (trans_prob_scale o * forward_cost e)%Q.

(** Modelled from the spec: an arc of the decoding graph the inserter
    returns: a self-loop it added, or the forward arc that stands for an arc
    of its input, whose weight [own] it carries on. *)
Inductive HmmArc :=
| SelfLoop (e : TransitionEntry)
| Forward (e : TransitionEntry) (own : Q).

(** What the inserter contributes to the arc. *)
Definition inserted_weight (o : TrainingGraphCompilerOptions) (a : HmmArc)
  : Q :=
  match a with
  | SelfLoop e => self_loop_weight o e
  | Forward e _ => forward_weight o e
  end.

Definition own_weight (a : HmmArc) : Q :=
  match a with
  | SelfLoop _ => One
  | Forward _ own => own
  end.

Definition arc_weight (o : TrainingGraphCompilerOptions) (a : HmmArc) : Q :=
  Times (own_weight a) (inserted_weight o a).

Fixpoint path_weight (o : TrainingGraphCompilerOptions) (p : list HmmArc)
  : Q :=
  match p with
  | [] => One
  | a :: rest => Times (arc_weight o a) (path_weight o rest)
  end.

(** The weight the path has from the inserter's input alone. *)
Fixpoint own_path_weight (p : list HmmArc) : Q :=
  match p with
  | [] => One
  | a :: rest => Times (own_weight a) (own_path_weight rest)
  end.

End Topology.

(** ** Concrete inputs

    Small transducers, compilers and command lines on which the driver can be
    run. *)

Module Examples.

Definition one_state : VectorFst :=
  {| Start := 0; states := [ {| final := Some 0%Q; arcs := [] |} ] |}.

Definition two_states : VectorFst :=
  {| Start := 0;
     states := [ {| final := None;
                    arcs := [ {| ilabel := 1; olabel := 1; weight := 0%Q;
                                 nextstate := 1 |} ] |};
                 {| final := Some 0%Q; arcs := [] |} ] |}.

(** A compiler that succeeds, with the grammar itself, on every grammar
    that has a start state, and fails with an empty graph on the others. *)
Definition echo_CompileGraph (g : VectorFst) : bool * VectorFst :=
  if has_start g then (true, g) else (false, empty_fst).

Definition echo : Compiler :=
  {| CompileGraph := echo_CompileGraph;
     CompileGraphs :=
       fun gs => (true, map (fun g => snd (echo_CompileGraph g)) gs) |}.

(** A compiler whose batch entry point always fails. *)
Definition refusing : Compiler :=
  {| CompileGraph := echo_CompileGraph;
     CompileGraphs := fun _ => (false, []) |}.

Definition archive3 : list Entry :=
  [ ("k1"%string, one_state); ("k2"%string, empty_fst);
    ("k3"%string, two_states) ].

(** A file system in which every resource can be read. *)
Definition files (archive : list Entry) : FileSystem unit unit :=
  {| read_tree := fun _ => Some tt;
     read_model := fun _ => Some tt;
     ifstream_good := fun _ => true;
     VectorFst_Read := fun _ => Some one_state;
     ReadIntegerVectorSimple := fun _ => Some [3; 4];
     read_archive := fun _ => archive |}.

(** The same, with a lexicon that does not parse. *)
Definition files_bad_lexicon (archive : list Entry) : FileSystem unit unit :=
  {| read_tree := fun _ => Some tt;
     read_model := fun _ => Some tt;
     ifstream_good := fun _ => true;
     VectorFst_Read := fun _ => None;
     ReadIntegerVectorSimple := fun _ => Some [3; 4];
     read_archive := fun _ => archive |}.

Definition command_line (batch : option Z) : CommandLine :=
  {| opt_transition_scale := None;
     opt_self_loop_scale := None;
     opt_batch_size := batch;
     opt_read_disambig_syms := None;
     positional := [ "tree"; "1.mdl"; "lex.fst"; "ark:train.fsts";
                     "ark:graphs.fsts" ]%string |}.

Definition construct (gc : Compiler) (_ _ : unit) (_ : VectorFst)
           (_ : list Z) (_ : TrainingGraphCompilerOptions) : Compiler := gc.

Definition entry : Topology.TransitionEntry :=
  {| Topology.phone := 7; Topology.self_loop_cost := (1 # 2)%Q;
     Topology.forward_cost := (3 # 4)%Q |}.

End Examples.

(** ** Notions used in the statements *)

(** The graph the loop for [batch_size == 1] writes for a grammar. *)
Definition written_single (gc : Compiler) (grammar : VectorFst) : VectorFst :=
  if fst (CompileGraph gc grammar) then snd (CompileGraph gc grammar)
  else DeleteStates (snd (CompileGraph gc grammar)).

(** What that loop writes for an archive. *)
Definition single_output (gc : Compiler) (rd : list Entry) : list Entry :=
  map (fun e => (fst e, written_single gc (snd e))) rd.

(** How one pass of a loop moved the two counters. *)
Definition counted_succeeded (st st' : DriverState) : Prop :=
  num_succeed st' = int32_wrap (num_succeed st + 1) /\
  num_fail st' = num_fail st.

Definition counted_failed (st st' : DriverState) : Prop :=
  num_fail st' = int32_wrap (num_fail st + 1) /\
  num_succeed st' = num_succeed st.

(** The number of entries of an archive whose graph has a start state, and
    of those whose graph has none. *)
Definition count_started (es : list Entry) : Z :=
  Z.of_nat (length (filter (fun e => has_start (snd e)) es)).

Definition count_empty (es : list Entry) : Z :=
  Z.of_nat (length (filter (fun e => negb (has_start (snd e))) es)).

Definition keys_of (es : list Entry) : list string := map fst es.

(** The command line with [--batch-size=b]. *)
Definition with_batch_size (cl : CommandLine) (b : Z) : CommandLine :=
  {| opt_transition_scale := opt_transition_scale cl;
     opt_self_loop_scale := opt_self_loop_scale cl;
     opt_batch_size := Some b;
     opt_read_disambig_syms := opt_read_disambig_syms cl;
     positional := positional cl |}.

(** [CompileGraphs] keeps to the count: it succeeds, with as many graphs as
    it was given grammars. *)
Definition keeps_count (gc : Compiler) : Prop :=
  forall gs, fst (CompileGraphs gc gs) = true /\
             length (snd (CompileGraphs gc gs)) = length gs.

(** [batch_reaches gc b st st']: the batched loop, started in [st], is in
    [st'] at the top of one of its passes. *)
Inductive batch_reaches (gc : Compiler) (b : Z)
  : DriverState -> DriverState -> Prop :=
| reaches_refl : forall st, batch_reaches gc b st st
| reaches_step : forall st st' st'',
    fst_reader st <> [] ->
    batch_body gc b st = Continue st' ->
    batch_reaches gc b st' st'' ->
    batch_reaches gc b st st''.

(** The batch the loop hands to [CompileGraphs] in state [st]. *)
Definition batch_keys (b : Z) (st : DriverState) : list string :=
  fst (fst (fill_batch b (fst_reader st) [] [])).

Definition batch_grammars (b : Z) (st : DriverState) : list VectorFst :=
  snd (fst (fill_batch b (fst_reader st) [] [])).

(** An outcome that is not the normal end of the run: no summary was logged
    and the status is not zero. *)
Definition fatal (o : Outcome) : Prop :=
  exit_status (how o) <> 0 /\
  forall st, tables o = Some st ->
             forall s f, ~ In (LogSummary s f) (log st).

(** The warnings the loop for [batch_size == 1] logs over an archive: one
    for each entry whose compilation returns false, in the order of the
    archive. *)
Definition warnings_of (gc : Compiler) (rd : list Entry) : list LogLine :=
  map (fun e => WarnProblem (fst e))
      (filter (fun e => negb (fst (CompileGraph gc (snd e)))) rd).

(** The causes for which [main] is left before the two tables are opened. *)
Definition cannot_set_up {ContextDependency TransitionModel : Type}
           (fs : FileSystem ContextDependency TransitionModel)
           (cl : CommandLine) : Prop :=
  NumArgs cl <> 5%nat \/
  read_tree fs (GetArg cl 1) = None \/
  read_model fs (GetArg cl 2) = None \/
  ifstream_good fs (GetArg cl 3) = false \/
  VectorFst_Read fs (GetArg cl 3) = None \/
  (disambig_rxfilename_of cl <> EmptyString /\
   ReadIntegerVectorSimple fs (disambig_rxfilename_of cl) = None).

(** * Properties *)

(** ** Machine integers *)

Lemma int32_wrap_id : forall z, is_int32 z -> int32_wrap z = z.
Proof.
  unfold is_int32, INT32_MIN, INT32_MAX, int32_wrap. intros z Hz.
  rewrite Z.mod_small; lia.
Qed.

Lemma int32_wrap_range : forall z, is_int32 (int32_wrap z).
Proof.
  unfold is_int32, INT32_MIN, INT32_MAX, int32_wrap. intros z.
  pose proof (Z.mod_pos_bound (z + 2 ^ 31) (2 ^ 32) ltac:(lia)). lia.
Qed.

Lemma int32_wrap_succ_neq : forall z, int32_wrap (z + 1) <> z.
Proof.
  intros z Heq.
  assert (Hr : is_int32 z) by (rewrite <- Heq; apply int32_wrap_range).
  unfold is_int32, INT32_MIN, INT32_MAX in Hr.
  destruct (Z.eq_dec z (2 ^ 31 - 1)) as [-> | Hne].
  - vm_compute in Heq. discriminate.
  - rewrite int32_wrap_id in Heq by (unfold is_int32, INT32_MIN, INT32_MAX; lia).
    lia.
Qed.

Lemma int32_wrap_zero : int32_wrap 0 = 0.
Proof. reflexivity. Qed.

(** ** The loop for [batch_size == 1] *)

Section SequentialFacts.

Variable gc : Compiler.

Lemma sequential_body_writer : forall key grammar st,
  fst_writer (sequential_body gc key grammar st) =
  fst_writer st ++ [(key, written_single gc grammar)].
Proof.
  intros key grammar st. unfold sequential_body, written_single.
  destruct (CompileGraph gc grammar) as [[|] compiled]; reflexivity.
Qed.

Lemma sequential_body_reader : forall key grammar st,
  fst_reader (sequential_body gc key grammar st) = fst_reader st.
Proof.
  intros key grammar st. unfold sequential_body.
  destruct (CompileGraph gc grammar) as [[|] compiled]; reflexivity.
Qed.

(** The counters move by the start state of the graph that is written. *)
Lemma sequential_body_counts : forall key grammar st,
  let st' := sequential_body gc key grammar st in
  if has_start (written_single gc grammar)
  then counted_succeeded st st'
  else counted_failed st st'.
Proof.
  intros key grammar st. unfold sequential_body, written_single, has_start,
    counted_succeeded, counted_failed.
  destruct (CompileGraph gc grammar) as [[|] compiled]; cbn [fst snd].
  - destruct (Start compiled =? kNoStateId); cbn; auto.
  - cbn. auto.
Qed.

Lemma written_single_failure : forall grammar,
  fst (CompileGraph gc grammar) = false ->
  written_single gc grammar = empty_fst.
Proof.
  intros grammar Hfail. unfold written_single. rewrite Hfail. reflexivity.
Qed.

Lemma written_single_success : forall grammar,
  fst (CompileGraph gc grammar) = true ->
  written_single gc grammar = snd (CompileGraph gc grammar).
Proof.
  intros grammar Hok. unfold written_single. rewrite Hok. reflexivity.
Qed.

Lemma sequential_loop_tables : forall rd st,
  fst_reader st = rd ->
  fst_reader (sequential_loop gc rd st) = [] /\
  fst_writer (sequential_loop gc rd st) = fst_writer st ++ single_output gc rd.
Proof.
  induction rd as [| [key grammar] rd' IH]; intros st Hrd; cbn.
  - split; [assumption | now rewrite app_nil_r].
  - destruct (IH (reader_Next (sequential_body gc key grammar st)))
      as [Hdone Hout].
    + cbn. rewrite sequential_body_reader, Hrd. reflexivity.
    + split; [assumption |].
      rewrite Hout. cbn [reader_Next fst_writer].
      rewrite sequential_body_writer, <- app_assoc. reflexivity.
Qed.

End SequentialFacts.

Lemma count_split : forall es,
  count_started es + count_empty es = Z.of_nat (length es).
Proof.
  unfold count_started, count_empty. induction es as [| e es IH]; cbn.
  - reflexivity.
  - destruct (has_start (snd e)); cbn [negb length]; lia.
Qed.

Lemma count_started_app : forall es es',
  count_started (es ++ es') = count_started es + count_started es'.
Proof.
  intros es es'. unfold count_started.
  rewrite filter_app, length_app. lia.
Qed.

Lemma count_empty_app : forall es es',
  count_empty (es ++ es') = count_empty es + count_empty es'.
Proof.
  intros es es'. unfold count_empty.
  rewrite filter_app, length_app. lia.
Qed.

Section SequentialCounts.

Variable gc : Compiler.

(** As long as the counters stay in range they count the graphs written
    with and without a start state. *)
Lemma sequential_loop_counts : forall rd st,
  0 <= num_succeed st -> 0 <= num_fail st ->
  num_succeed st + num_fail st + Z.of_nat (length rd) <= INT32_MAX ->
  num_succeed (sequential_loop gc rd st) =
    num_succeed st + count_started (single_output gc rd) /\
  num_fail (sequential_loop gc rd st) =
    num_fail st + count_empty (single_output gc rd).
Proof.
  induction rd as [| [key grammar] rd' IH]; intros st Hs Hf Hbound.
  - cbn. unfold count_started, count_empty. cbn. lia.
  - cbn [sequential_loop].
    pose proof (sequential_body_counts gc key grammar st) as Hcount.
    cbn zeta in Hcount.
    set (st' := sequential_body gc key grammar st) in *.
    change (single_output gc ((key, grammar) :: rd'))
      with ([(key, written_single gc grammar)] ++ single_output gc rd').
    rewrite count_started_app, count_empty_app.
    unfold count_started at 1, count_empty at 1. cbn [filter snd].
    cbn [length] in Hbound.
    unfold INT32_MAX in *.
    destruct (has_start (written_single gc grammar));
      destruct Hcount as [H1 H2]; cbn [negb length].
    + rewrite int32_wrap_id in H1
        by (unfold is_int32, INT32_MIN, INT32_MAX; lia).
      destruct (IH (reader_Next st')) as [IHs IHf];
        cbn [reader_Next num_succeed num_fail]; try lia.
      rewrite IHs, IHf. cbn [reader_Next num_succeed num_fail]. lia.
    + rewrite int32_wrap_id in H1
        by (unfold is_int32, INT32_MIN, INT32_MAX; lia).
      destruct (IH (reader_Next st')) as [IHs IHf];
        cbn [reader_Next num_succeed num_fail]; try lia.
      rewrite IHs, IHf. cbn [reader_Next num_succeed num_fail]. lia.
Qed.

End SequentialCounts.

(** ** Runs with [batch_size == 1] *)

Section SingleRuns.

Variables ContextDependency TransitionModel : Type.
Variable TrainingGraphCompiler :
  TransitionModel -> ContextDependency -> VectorFst -> list Z ->
  TrainingGraphCompilerOptions -> Compiler.

Local Abbreviation run :=
  (main ContextDependency TransitionModel TrainingGraphCompiler).
Local Abbreviation set_up :=
  (setup ContextDependency TransitionModel TrainingGraphCompiler).

(** Once the set-up is through, a run with [batch_size == 1] comes to its
    normal end whatever the fuel, and has written one graph per entry. *)
Lemma single_run : forall fs cl gc log0 archive fuel,
  set_up fs cl = inr (gc, log0, archive) ->
  batch_size_of cl = 1 ->
  exists st,
    run fuel fs cl = Some {| how := Return 0; tables := Some st |} /\
    fst_reader st = [] /\
    fst_writer st = single_output gc archive /\
    (Z.of_nat (length archive) <= INT32_MAX ->
     num_succeed st = count_started (fst_writer st) /\
     num_fail st = count_empty (fst_writer st)) /\
    In (LogSummary (num_succeed st) (num_fail st)) (log st).
Proof.
  intros fs cl gc log0 archive fuel Hsetup Hone.
  unfold main. rewrite Hsetup.
  unfold compile_all. rewrite Hone. cbn [Z.eqb Pos.eqb option_map finish].
  change (fst_reader (initial_state archive log0)) with archive.
  set (st0 := initial_state archive log0).
  destruct (sequential_loop_tables gc archive st0 eq_refl) as [Hrd Hwr].
  cbn [fst_writer st0 initial_state app] in Hwr.
  eexists. split; [reflexivity |].
  cbn [log_summary fst_reader fst_writer num_succeed num_fail log].
  split; [exact Hrd |]. split; [exact Hwr |]. split.
  - intro Hlen. rewrite Hwr.
    destruct (sequential_loop_counts gc archive st0) as [Hs Hf];
      cbn [st0 initial_state num_succeed num_fail]; try lia.
    rewrite Hs, Hf. cbn [st0 initial_state num_succeed num_fail]. lia.
  - apply in_or_app. right. left. reflexivity.
Qed.

(** C3.  With [batch_size == 1], an utterance for which [CompileGraph]
    returns false still has its entry in the output archive, at the place
    its key has in the input, and the graph written there is empty: it has
    no states and no start state.  The run goes on to its normal end. *)
Theorem failed_utterance_is_written_empty :
  forall fs cl gc log0 archive fuel i key grammar,
    set_up fs cl = inr (gc, log0, archive) ->
    batch_size_of cl = 1 ->
    nth_error archive i = Some (key, grammar) ->
    fst (CompileGraph gc grammar) = false ->
    exists st decode_fst,
      run fuel fs cl = Some {| how := Return 0; tables := Some st |} /\
      length (fst_writer st) = length archive /\
      nth_error (fst_writer st) i = Some (key, decode_fst) /\
      states decode_fst = [] /\
      Start decode_fst = kNoStateId.
Proof.
  intros fs cl gc log0 archive fuel i key grammar Hsetup Hone Hi Hfail.
  destruct (single_run fs cl gc log0 archive fuel Hsetup Hone)
    as (st & Hrun & _ & Hwr & _).
  exists st, empty_fst. split; [exact Hrun |].
  rewrite Hwr. unfold single_output. split; [apply length_map |].
  split; [| split; reflexivity].
  rewrite nth_error_map, Hi. cbn.
  rewrite written_single_failure by assumption. reflexivity.
Qed.

(** C10.  With [batch_size == 1] the counters follow the start state of
    the graph that is written: a pass of the loop counts its utterance as
    succeeded exactly when that graph has a start state and as failed
    exactly when it has none.  So an utterance whose compilation returns
    false is counted as failed, its graph having lost all its states, and
    so is one whose compilation returns true with a graph of no states.
    At the end of the run the two counters are the numbers of graphs
    written with and without a start state. *)
Theorem single_path_counts_by_start_state :
  forall fs cl gc log0 archive fuel,
    set_up fs cl = inr (gc, log0, archive) ->
    batch_size_of cl = 1 ->
    Z.of_nat (length archive) <= INT32_MAX ->
    (forall key grammar st,
        let st' := sequential_body gc key grammar st in
        let decode_fst := written_single gc grammar in
        fst_writer st' = fst_writer st ++ [(key, decode_fst)] /\
        (counted_succeeded st st' <-> Start decode_fst <> kNoStateId) /\
        (counted_failed st st' <-> Start decode_fst = kNoStateId) /\
        (fst (CompileGraph gc grammar) = false ->
         decode_fst = DeleteStates (snd (CompileGraph gc grammar)) /\
         counted_failed st st') /\
        (fst (CompileGraph gc grammar) = true ->
         well_formed (snd (CompileGraph gc grammar)) ->
         states (snd (CompileGraph gc grammar)) = [] ->
         counted_failed st st')) /\
    exists st,
      run fuel fs cl = Some {| how := Return 0; tables := Some st |} /\
      fst_writer st = single_output gc archive /\
      num_succeed st = count_started (fst_writer st) /\
      num_fail st = count_empty (fst_writer st).
Proof.
  intros fs cl gc log0 archive fuel Hsetup Hone Hlen. split.
  - intros key grammar st st' decode_fst.
    pose proof (sequential_body_counts gc key grammar st) as Hcount.
    cbn zeta in Hcount. fold st' decode_fst in Hcount.
    assert (Hstart : has_start decode_fst = true <->
                     Start decode_fst <> kNoStateId).
    { unfold has_start. rewrite negb_true_iff. apply Z.eqb_neq. }
    assert (Hexcl : counted_succeeded st st' -> counted_failed st st' ->
                    False).
    { intros [H1 _] [_ H2]. rewrite H2 in H1. symmetry in H1.
      exact (int32_wrap_succ_neq _ H1). }
    assert (Hs : counted_succeeded st st' <->
                 Start decode_fst <> kNoStateId).
    { rewrite <- Hstart.
      destruct (has_start decode_fst); split; intro H;
        solve [ reflexivity | exact Hcount | discriminate
              | exfalso; exact (Hexcl H Hcount) ]. }
    assert (Hf : counted_failed st st' <-> Start decode_fst = kNoStateId).
    { destruct (Z.eq_dec (Start decode_fst) kNoStateId) as [He | Hne].
      - split; intro; auto.
        destruct (has_start decode_fst); [| exact Hcount].
        exfalso. exact (proj1 Hstart eq_refl He).
      - split; intro H; [| contradiction].
        exfalso. apply Hs in Hne. exact (Hexcl Hne H). }
    split; [apply sequential_body_writer |].
    split; [exact Hs |]. split; [exact Hf |]. split.
    + intro Hfail. split.
      * unfold decode_fst, written_single. rewrite Hfail. reflexivity.
      * apply Hf. unfold decode_fst.
        rewrite written_single_failure by assumption. reflexivity.
    + intros Hok Hwf Hnone. apply Hf. unfold decode_fst.
      rewrite written_single_success by assumption.
      destruct Hwf as [Hno | Hin]; [exact Hno |].
      unfold NumStates in Hin. rewrite Hnone in Hin. cbn in Hin. lia.
  - destruct (single_run fs cl gc log0 archive fuel Hsetup Hone)
      as (st & Hrun & _ & Hwr & Hcounts & _).
    exists st. destruct (Hcounts Hlen) as [Hs Hf]. auto.
Qed.

End SingleRuns.

(** ** The batched loop *)

Section BatchFacts.

Variable gc : Compiler.
Variable b : Z.

Lemma fill_batch_split : forall rd keys grammars,
  exists n,
    fill_batch b rd keys grammars =
    (keys ++ map fst (firstn n rd), grammars ++ map snd (firstn n rd),
     skipn n rd).
Proof.
  induction rd as [| [key value] rd' IH]; intros keys grammars.
  - exists O. cbn. now rewrite !app_nil_r.
  - cbn [fill_batch].
    destruct (int32_wrap (Z.of_nat (length grammars)) <? b).
    + destruct (IH (keys ++ [key]) (grammars ++ [value])) as [n Hn].
      exists (S n). rewrite Hn. cbn. now rewrite <- !app_assoc.
    + exists O. cbn. now rewrite !app_nil_r.
Qed.

(** A positive batch size lets the first entry in. *)
Lemma fill_batch_takes : 1 <= b -> forall e rd,
  exists n,
    fill_batch b (e :: rd) [] [] =
    (map fst (firstn (S n) (e :: rd)), map snd (firstn (S n) (e :: rd)),
     skipn (S n) (e :: rd)).
Proof.
  intros Hb [key value] rd. cbn [fill_batch length].
  change (int32_wrap (Z.of_nat 0)) with 0.
  destruct (Z.ltb_spec 0 b) as [_ | Hle]; [| lia].
  destruct (fill_batch_split rd ([] ++ [key]) ([] ++ [value])) as [n Hn].
  exists n. rewrite Hn. reflexivity.
Qed.

(** A batch size that is not positive lets nothing in. *)
Lemma fill_batch_none : b <= 0 -> forall rd,
  fill_batch b rd [] [] = ([], [], rd).
Proof.
  intros Hb [| [key value] rd]; [reflexivity |].
  cbn [fill_batch length]. change (int32_wrap (Z.of_nat 0)) with 0.
  destruct (Z.ltb_spec 0 b) as [Hlt | _]; [lia | reflexivity].
Qed.

Lemma batch_loop_more_fuel : forall fuel st r,
  batch_loop gc b fuel st = Some r ->
  forall fuel', (fuel <= fuel')%nat -> batch_loop gc b fuel' st = Some r.
Proof.
  induction fuel as [| fuel IH]; intros st r Hrun fuel' Hle.
  - discriminate.
  - destruct fuel' as [| fuel']; [lia |].
    cbn [batch_loop] in *.
    destruct (fst_reader st); [assumption |].
    destruct (batch_body gc b st); [| assumption].
    apply IH with (fuel' := fuel') in Hrun; [assumption | lia].
Qed.

(** A pass leaves the failure counter and the log alone, and consumes
    what it took into the batch. *)
Lemma batch_body_continue : forall st st',
  batch_body gc b st = Continue st' ->
  num_fail st' = num_fail st /\ log st' = log st /\
  fst_reader st' = snd (fill_batch b (fst_reader st) [] []) /\
  fst_writer st' =
    fst_writer st ++
    combine (batch_keys b st) (snd (CompileGraphs gc (batch_grammars b st))) /\
  num_succeed st' =
    int32_wrap (num_succeed st +
                Z.of_nat (length (snd (CompileGraphs gc
                                         (batch_grammars b st))))) /\
  fst (CompileGraphs gc (batch_grammars b st)) = true /\
  length (snd (CompileGraphs gc (batch_grammars b st))) =
    length (batch_keys b st).
Proof.
  intros st st'. unfold batch_body, batch_keys, batch_grammars.
  destruct (fill_batch b (fst_reader st) [] []) as [[keys grammars] rd'].
  cbn [fst snd].
  destruct (CompileGraphs gc grammars) as [[|] fsts]; cbn [negb fst snd];
    [| discriminate].
  destruct (Nat.eqb_spec (length fsts) (length keys)) as [Heq | Hne];
    cbn [negb]; [| discriminate].
  intros [= <-]. cbn. auto 10.
Qed.

(** The two ways a pass dies. *)
Lemma batch_body_die : forall st,
  fst (CompileGraphs gc (batch_grammars b st)) = false \/
  length (snd (CompileGraphs gc (batch_grammars b st))) <>
    length (batch_keys b st) ->
  exists f st',
    batch_body gc b st = Die f st' /\
    fst_writer st' = fst_writer st /\
    num_succeed st' = num_succeed st /\
    num_fail st' = num_fail st /\
    log st' = log st /\
    (f = KaldiError <->
     fst (CompileGraphs gc (batch_grammars b st)) = false).
Proof.
  intros st. unfold batch_body, batch_keys, batch_grammars.
  destruct (fill_batch b (fst_reader st) [] []) as [[keys grammars] rd'].
  cbn [fst snd].
  destruct (CompileGraphs gc grammars) as [[|] fsts]; cbn [negb fst snd].
  - intros [Hfalse | Hlen]; [discriminate |].
    destruct (Nat.eqb_spec (length fsts) (length keys)) as [Heq | Hne];
      [contradiction |]. cbn [negb].
    eexists _, _. split; [reflexivity |]. cbn.
    repeat split; auto; discriminate.
  - intros _. eexists _, _. split; [reflexivity |]. cbn.
    repeat split; auto.
Qed.

Lemma batch_reaches_keeps : forall st st',
  batch_reaches gc b st st' ->
  num_fail st' = num_fail st /\ log st' = log st.
Proof.
  induction 1 as [st | st st' st'' _ Hbody _ [IHf IHl]].
  - auto.
  - apply batch_body_continue in Hbody as (Hf & Hl & _).
    split; congruence.
Qed.

(** What the loop does from a state it reaches, it does from the start. *)
Lemma batch_reaches_run : forall st st',
  batch_reaches gc b st st' ->
  forall fuel r, batch_loop gc b fuel st' = Some r ->
  exists fuel0, forall fuel', (fuel0 <= fuel')%nat ->
                              batch_loop gc b fuel' st = Some r.
Proof.
  induction 1 as [st | st st' st'' Hrd Hbody _ IH]; intros fuel r Hrun.
  - exists fuel. intros fuel' Hle.
    now apply batch_loop_more_fuel with (fuel := fuel).
  - destruct (IH fuel r Hrun) as [fuel0 Hfuel0].
    exists (S fuel0). intros [| fuel'] Hle; [lia |].
    cbn [batch_loop]. destruct (fst_reader st); [contradiction |].
    rewrite Hbody. apply Hfuel0. lia.
Qed.

(** With a positive batch size the loop comes to an end, one way or the
    other, whatever the compiler does. *)
Lemma batch_loop_terminates : 1 <= b -> forall fuel st,
  (length (fst_reader st) < fuel)%nat ->
  exists r, batch_loop gc b fuel st = Some r.
Proof.
  intros Hb. induction fuel as [| fuel IH]; intros st Hlt; [lia |].
  cbn [batch_loop]. destruct (fst_reader st) as [| e rd] eqn:Hrd.
  - eauto.
  - destruct (batch_body gc b st) as [st' | f st'] eqn:Hbody; [| eauto].
    apply IH. apply batch_body_continue in Hbody as (_ & _ & Hrd' & _).
    rewrite Hrd', Hrd.
    destruct (fill_batch_takes Hb e rd) as [n Hn]. rewrite Hn.
    cbn [snd skipn length] in *. rewrite length_skipn. lia.
Qed.

End BatchFacts.

(** ** Batches that compile *)

Section BatchCompletes.

Variable gc : Compiler.
Variable b : Z.
Hypothesis Hb : 1 <= b.

(** What is known of the graphs of a batch, grammar by grammar. *)
Variable rel : VectorFst -> VectorFst -> Prop.
Hypothesis Hgood : forall gs,
  fst (CompileGraphs gc gs) = true /\
  Forall2 rel gs (snd (CompileGraphs gc gs)).

Lemma combine_related : forall (es : list Entry) fsts,
  Forall2 rel (map snd es) fsts ->
  Forall2 (fun e o => fst o = fst e /\ rel (snd e) (snd o))
          es (combine (map fst es) fsts).
Proof.
  induction es as [| e es IH]; intros fsts HF; inversion HF; subst; cbn.
  - constructor.
  - constructor; [split; [reflexivity | assumption] | now apply IH].
Qed.

Lemma batch_loop_completes : forall fuel st,
  (length (fst_reader st) < fuel)%nat ->
  exists st' out,
    batch_loop gc b fuel st = Some (inr st') /\
    fst_reader st' = [] /\
    fst_writer st' = fst_writer st ++ out /\
    Forall2 (fun e o => fst o = fst e /\ rel (snd e) (snd o))
            (fst_reader st) out /\
    num_fail st' = num_fail st /\
    log st' = log st.
Proof.
  induction fuel as [| fuel IH]; intros st Hlt; [lia |].
  cbn [batch_loop]. destruct (fst_reader st) as [| e rd] eqn:Hrd.
  - exists st, []. rewrite app_nil_r. repeat split; auto using Forall2_nil.
  - destruct (fill_batch_takes b Hb e rd) as [n Hn].
    destruct (batch_body gc b st) as [st1 | f st1] eqn:Hbody.
    + pose proof (batch_body_continue gc b st st1 Hbody)
        as (Hf & Hl & Hrd1 & Hwr1 & _).
      unfold batch_keys, batch_grammars in Hwr1.
      rewrite Hrd, Hn in Hrd1, Hwr1. cbn [fst snd] in Hrd1, Hwr1.
      destruct (IH st1) as (st' & out & Hrun & Hdone & Hwr & HF & Hf' & Hl').
      { rewrite Hrd1. cbn [length] in Hlt. cbn [skipn].
        rewrite length_skipn. lia. }
      set (taken := firstn (S n) (e :: rd)) in *.
      set (rest := skipn (S n) (e :: rd)) in *.
      exists st'.
      exists (combine (map fst taken)
                      (snd (CompileGraphs gc (map snd taken))) ++ out).
      split; [exact Hrun |]. split; [exact Hdone |].
      split; [rewrite Hwr, Hwr1, <- app_assoc; reflexivity |].
      split; [| split; congruence].
      replace (e :: rd) with (taken ++ rest) by apply firstn_skipn.
      apply Forall2_app.
      * apply combine_related. apply Hgood.
      * rewrite <- Hrd1. exact HF.
    + exfalso.
      unfold batch_body in Hbody. rewrite Hrd, Hn in Hbody.
      destruct (Hgood (map snd (firstn (S n) (e :: rd)))) as [Hok HF].
      destruct (CompileGraphs gc (map snd (firstn (S n) (e :: rd))))
        as [ok fsts].
      cbn [fst snd] in Hok, HF. subst ok. cbn [negb] in Hbody.
      apply Forall2_length in HF. rewrite length_map in HF.
      rewrite length_map, <- HF, Nat.eqb_refl in Hbody. discriminate.
Qed.

End BatchCompletes.

(** ** A batch size that is not positive *)

Section BatchStuck.

Variable gc : Compiler.
Variable b : Z.
Hypothesis Hb : b <= 0.
Hypothesis Hnil : CompileGraphs gc [] = (true, []).

(** A pass that starts with entries left changes nothing at all. *)
Lemma batch_body_stuck : forall st,
  is_int32 (num_succeed st) -> batch_body gc b st = Continue st.
Proof.
  intros [rd wr ns nf lg] Hns. unfold batch_body. cbn [fst_reader].
  rewrite (fill_batch_none b Hb), Hnil. cbn.
  rewrite app_nil_r, Z.add_0_r, int32_wrap_id by exact Hns. reflexivity.
Qed.

Lemma batch_loop_stuck : forall fuel st,
  fst_reader st <> [] -> is_int32 (num_succeed st) ->
  batch_loop gc b fuel st = None.
Proof.
  induction fuel as [| fuel IH]; intros st Hrd Hns; [reflexivity |].
  cbn [batch_loop]. destruct (fst_reader st) eqn:Hst; [contradiction |].
  rewrite batch_body_stuck by exact Hns. apply IH; [| exact Hns].
  rewrite Hst. discriminate.
Qed.

End BatchStuck.

Lemma is_int32_zero : is_int32 0.
Proof. unfold is_int32, INT32_MIN, INT32_MAX. lia. Qed.

(** C9.  In the batched path the loop comes to an end on every input
    archive exactly when [batch_size] is at least one.  Nothing in the code
    rejects the other values: with [batch_size <= 0] and an archive that is
    not empty the inner loop takes no entry, a pass of the outer loop hands
    the state on as it found it, and no amount of fuel sees the loop end.
    The empty batch is taken to compile, to no graphs. *)
Theorem batched_loop_ends_iff_batch_size_positive :
  forall gc b,
    b <> 1 ->
    CompileGraphs gc [] = (true, []) ->
    ((forall archive log0, exists fuel r,
         compile_all gc b fuel (initial_state archive log0) = Some r)
     <-> 1 <= b) /\
    (b <= 0 ->
     forall archive log0, archive <> [] ->
       fill_batch b archive [] [] = ([], [], archive) /\
       batch_body gc b (initial_state archive log0) =
         Continue (initial_state archive log0) /\
       forall fuel,
         compile_all gc b fuel (initial_state archive log0) = None).
Proof.
  intros gc b Hbatch Hnil.
  assert (Hpath : forall fuel st,
             compile_all gc b fuel st = batch_loop gc b fuel st).
  { intros fuel st. unfold compile_all.
    destruct (Z.eqb_spec b 1); [contradiction | reflexivity]. }
  assert (Hstuck : b <= 0 ->
     forall archive log0, archive <> [] ->
       fill_batch b archive [] [] = ([], [], archive) /\
       batch_body gc b (initial_state archive log0) =
         Continue (initial_state archive log0) /\
       forall fuel,
         compile_all gc b fuel (initial_state archive log0) = None).
  { intros Hb archive log0 Hne. split; [now apply fill_batch_none |].
    split; [apply batch_body_stuck; auto using is_int32_zero |].
    intros fuel. rewrite Hpath.
    apply batch_loop_stuck; auto using is_int32_zero. }
  split; [| exact Hstuck]. split.
  - intros Hends. destruct (Z.le_gt_cases 1 b) as [Hle | Hgt]; [exact Hle |].
    exfalso.
    destruct (Hends [(EmptyString, empty_fst)] []) as (fuel & r & Hrun).
    destruct (Hstuck ltac:(lia) [(EmptyString, empty_fst)] [])
      as (_ & _ & Hnone); [discriminate |].
    rewrite Hnone in Hrun. discriminate.
  - intros Hb archive log0. exists (S (length archive)).
    destruct (batch_loop_terminates gc b Hb (S (length archive))
                (initial_state archive log0)) as [r Hr]; [cbn; lia |].
    exists r. rewrite Hpath. exact Hr.
Qed.

(** ** Runs in the batched path *)

Lemma Forall2_map_of : forall (A B : Type) (f : A -> B) (l : list A),
  Forall2 (fun a o => o = f a) l (map f l).
Proof. induction l; cbn; constructor; auto. Qed.

Lemma Forall2_same_length : forall (A B : Type) (l : list A) (l' : list B),
  length l' = length l -> Forall2 (fun _ _ => True) l l'.
Proof.
  induction l as [| a l IH]; intros [| a' l'] Hlen; cbn in Hlen;
    try discriminate; constructor; auto.
Qed.

Lemma related_keys : forall (rel : VectorFst -> VectorFst -> Prop)
                            (es out : list Entry),
  Forall2 (fun e o => fst o = fst e /\ rel (snd e) (snd o)) es out ->
  keys_of out = keys_of es.
Proof.
  induction 1 as [| e o es out [Hk _] _ IH]; cbn; [reflexivity |].
  unfold keys_of in IH. now rewrite Hk, IH.
Qed.

Lemma related_graphs : forall (f : VectorFst -> VectorFst)
                              (es out : list Entry),
  Forall2 (fun e o => fst o = fst e /\ snd o = f (snd e)) es out ->
  out = map (fun e => (fst e, f (snd e))) es.
Proof.
  induction 1 as [| e [k o] es out [Hk Hg] _ IH]; cbn in *; [reflexivity |].
  now rewrite <- Hk, <- Hg, IH.
Qed.

Section BatchedRuns.

Variables ContextDependency TransitionModel : Type.
Variable TrainingGraphCompiler :
  TransitionModel -> ContextDependency -> VectorFst -> list Z ->
  TrainingGraphCompilerOptions -> Compiler.

Local Abbreviation run :=
  (main ContextDependency TransitionModel TrainingGraphCompiler).
Local Abbreviation set_up :=
  (setup ContextDependency TransitionModel TrainingGraphCompiler).

Lemma setup_with_batch_size : forall fs cl b,
  set_up fs (with_batch_size cl b) = set_up fs cl.
Proof. reflexivity. Qed.

(** The log the set-up leaves holds no summary line. *)
Lemma setup_log : forall fs cl gc log0 archive,
  set_up fs cl = inr (gc, log0, archive) ->
  forall s f, ~ In (LogSummary s f) log0.
Proof.
  intros fs cl gc log0 archive. unfold setup.
  destruct (negb (Nat.eqb (NumArgs cl) 5)); [discriminate |].
  destruct (read_tree _ _); [| discriminate].
  destruct (read_model _ _); [| discriminate].
  destruct (negb (ifstream_good _ _)); [discriminate |].
  destruct (VectorFst_Read _ _); [| discriminate].
  destruct (read_disambig_syms _ _) as [[| sym syms] |]; [| | discriminate];
    intros [= _ <- _] s f Hin; cbn in Hin; intuition discriminate.
Qed.

(** With a positive batch size and a [CompileGraphs] that succeeds, the
    batched run comes to its normal end with a graph for every entry. *)
Lemma batched_run : forall (rel : VectorFst -> VectorFst -> Prop)
                           fs cl gc log0 archive fuel,
  set_up fs cl = inr (gc, log0, archive) ->
  batch_size_of cl <> 1 ->
  1 <= batch_size_of cl ->
  (forall gs, fst (CompileGraphs gc gs) = true /\
              Forall2 rel gs (snd (CompileGraphs gc gs))) ->
  (length archive < fuel)%nat ->
  exists st,
    run fuel fs cl = Some {| how := Return 0; tables := Some st |} /\
    fst_reader st = [] /\
    Forall2 (fun e o => fst o = fst e /\ rel (snd e) (snd o))
            archive (fst_writer st) /\
    num_fail st = 0.
Proof.
  intros rel fs cl gc log0 archive fuel Hsetup Hne Hb Hgood Hfuel.
  unfold main. rewrite Hsetup. unfold compile_all.
  destruct (Z.eqb_spec (batch_size_of cl) 1); [contradiction |].
  destruct (batch_loop_completes gc (batch_size_of cl) Hb rel Hgood fuel
              (initial_state archive log0) Hfuel)
    as (st & out & Hrun & Hdone & Hwr & HF & Hf & _).
  rewrite Hrun. cbn [option_map finish].
  eexists. split; [reflexivity |]. cbn in *. subst out. auto.
Qed.

(** In the batched path the graph of an utterance that does not compile is
    what [CompileGraphs] put in its place; for a compiler that keeps to its
    contract that is the empty graph, written under the utterance's key. *)
Lemma failed_utterance_in_batched_run : forall fs cl gc log0 archive fuel
                                               i key grammar,
  set_up fs cl = inr (gc, log0, archive) ->
  batch_size_of cl <> 1 ->
  1 <= batch_size_of cl ->
  compiler_contract gc ->
  (length archive < fuel)%nat ->
  nth_error archive i = Some (key, grammar) ->
  fst (CompileGraph gc grammar) = false ->
  exists st,
    run fuel fs cl = Some {| how := Return 0; tables := Some st |} /\
    nth_error (fst_writer st) i = Some (key, empty_fst).
Proof.
  intros fs cl gc log0 archive fuel i key grammar Hsetup Hne Hb Hc Hfuel
         Hi Hfail.
  destruct (batched_run (fun g o => o = snd (CompileGraph gc g))
              fs cl gc log0 archive fuel Hsetup Hne Hb)
    as (st & Hrun & _ & HF & _).
  - intros gs. rewrite (batch_is_elementwise gc Hc gs). cbn [fst snd].
    split; [reflexivity | apply Forall2_map_of].
  - exact Hfuel.
  - exists st. split; [exact Hrun |].
    apply (related_graphs (fun g => snd (CompileGraph gc g))) in HF.
    rewrite HF, nth_error_map, Hi. cbn.
    now rewrite (failure_is_empty gc Hc grammar Hfail).
Qed.

(** Nothing stands between a batch size that is not positive and the
    loop: on an archive that is not empty such a run has no end. *)
Lemma nonpositive_batch_size_run : forall fs cl gc log0 archive,
  set_up fs cl = inr (gc, log0, archive) ->
  batch_size_of cl <= 0 ->
  CompileGraphs gc [] = (true, []) ->
  archive <> [] ->
  forall fuel, run fuel fs cl = None.
Proof.
  intros fs cl gc log0 archive Hsetup Hb Hnil Harchive fuel.
  unfold main. rewrite Hsetup. unfold compile_all.
  destruct (Z.eqb_spec (batch_size_of cl) 1); [lia |].
  rewrite (batch_loop_stuck gc (batch_size_of cl) Hb Hnil);
    [reflexivity | exact Harchive | exact is_int32_zero].
Qed.

End BatchedRuns.

Lemma contract_written_single : forall gc,
  compiler_contract gc ->
  forall g, written_single gc g = snd (CompileGraph gc g).
Proof.
  intros gc Hc g. unfold written_single.
  destruct (fst (CompileGraph gc g)) eqn:Hok; [reflexivity |].
  rewrite (failure_is_empty gc Hc g Hok). reflexivity.
Qed.

Lemma single_output_keys : forall gc archive,
  keys_of (single_output gc archive) = keys_of archive.
Proof.
  intros gc archive. unfold keys_of, single_output.
  rewrite map_map. reflexivity.
Qed.

Section RunTheorems.

Variables ContextDependency TransitionModel : Type.
Variable TrainingGraphCompiler :
  TransitionModel -> ContextDependency -> VectorFst -> list Z ->
  TrainingGraphCompilerOptions -> Compiler.

Local Abbreviation run :=
  (main ContextDependency TransitionModel TrainingGraphCompiler).
Local Abbreviation set_up :=
  (setup ContextDependency TransitionModel TrainingGraphCompiler).

(** C1.  Take a compiler that keeps to its contract: a failed
    [CompileGraph] leaves an empty graph, and [CompileGraphs] gives, in
    order, the graphs [CompileGraph] gives.  Then on the same input archive
    the run with [--batch-size=1] and the run with any batch size above
    one both come to their normal end and their output archives are the
    same list of keys and graphs. *)
Theorem batched_run_writes_the_sequential_graphs :
  forall fs cl gc log0 archive b fuel,
    set_up fs cl = inr (gc, log0, archive) ->
    compiler_contract gc ->
    1 < b ->
    (length archive < fuel)%nat ->
    exists st1 stb,
      run fuel fs (with_batch_size cl 1) =
        Some {| how := Return 0; tables := Some st1 |} /\
      run fuel fs (with_batch_size cl b) =
        Some {| how := Return 0; tables := Some stb |} /\
      fst_writer stb = fst_writer st1 /\
      keys_of (fst_writer st1) = keys_of archive.
Proof.
  intros fs cl gc log0 archive b fuel Hsetup Hc Hb Hfuel.
  destruct (single_run ContextDependency TransitionModel
              TrainingGraphCompiler fs (with_batch_size cl 1) gc log0
              archive fuel Hsetup eq_refl)
    as (st1 & Hrun1 & _ & Hwr1 & _).
  destruct (batched_run ContextDependency TransitionModel
              TrainingGraphCompiler
              (fun g o => o = snd (CompileGraph gc g))
              fs (with_batch_size cl b) gc log0 archive fuel Hsetup)
    as (stb & Hrunb & _ & HF & _).
  - cbn. lia.
  - cbn. lia.
  - intros gs. rewrite (batch_is_elementwise gc Hc gs). cbn [fst snd].
    split; [reflexivity | apply Forall2_map_of].
  - exact Hfuel.
  - exists st1, stb. split; [exact Hrun1 |]. split; [exact Hrunb |]. split.
    + rewrite Hwr1.
      apply (related_graphs (fun g => snd (CompileGraph gc g))) in HF.
      rewrite HF.
      unfold single_output. apply map_ext. intros e.
      now rewrite contract_written_single.
    + rewrite Hwr1. apply single_output_keys.
Qed.

(** C4.  For a positive batch size, and in the batched path a
    [CompileGraphs] that succeeds with as many graphs as it was given
    grammars, the run comes to its normal end and the keys of the output
    archive are the keys of the input archive, in the same order, one
    entry for each, whether or not the compilation of a key failed. *)
Theorem output_keys_are_input_keys :
  forall fs cl gc log0 archive fuel,
    set_up fs cl = inr (gc, log0, archive) ->
    1 <= batch_size_of cl ->
    (batch_size_of cl <> 1 -> keeps_count gc) ->
    (length archive < fuel)%nat ->
    exists st,
      run fuel fs cl = Some {| how := Return 0; tables := Some st |} /\
      keys_of (fst_writer st) = keys_of archive /\
      length (fst_writer st) = length archive.
Proof.
  intros fs cl gc log0 archive fuel Hsetup Hb Hcount Hfuel.
  assert (Hlen : forall out : list Entry,
             keys_of out = keys_of archive ->
             length out = length archive).
  { intros out Hk. unfold keys_of in Hk.
    rewrite <- (length_map fst out), Hk. apply length_map. }
  destruct (Z.eq_dec (batch_size_of cl) 1) as [Hone | Hne].
  - destruct (single_run ContextDependency TransitionModel
                TrainingGraphCompiler fs cl gc log0 archive fuel Hsetup
                Hone) as (st & Hrun & _ & Hwr & _).
    exists st. split; [exact Hrun |].
    assert (Hk : keys_of (fst_writer st) = keys_of archive)
      by (rewrite Hwr; apply single_output_keys).
    auto.
  - destruct (batched_run ContextDependency TransitionModel
                TrainingGraphCompiler (fun _ _ => True)
                fs cl gc log0 archive fuel Hsetup Hne Hb)
      as (st & Hrun & _ & HF & _).
    + intros gs. destruct (Hcount Hne gs) as [Hok Hl].
      split; [exact Hok | now apply Forall2_same_length].
    + exact Hfuel.
    + exists st. split; [exact Hrun |].
      apply (related_keys (fun _ _ => True)) in HF. auto.
Qed.

(** C5.  In the batched path, let the loop have reached a pass whose
    batch [CompileGraphs] refuses, or answers with a number of graphs that
    is not the number of keys.  Then the run ends there and fatally: by
    the exception behind [KALDI_ERR] in the first case, by the failed
    assertion otherwise.  The status is not zero, no summary is logged,
    nothing of the batch is written and no utterance is counted as
    failed; and no amount of fuel gives the run another end. *)
Theorem batch_level_failure_is_fatal :
  forall fs cl gc log0 archive st,
    set_up fs cl = inr (gc, log0, archive) ->
    batch_size_of cl <> 1 ->
    batch_reaches gc (batch_size_of cl) (initial_state archive log0) st ->
    fst_reader st <> [] ->
    fst (CompileGraphs gc (batch_grammars (batch_size_of cl) st)) = false \/
    length (snd (CompileGraphs gc
                   (batch_grammars (batch_size_of cl) st))) <>
      length (batch_keys (batch_size_of cl) st) ->
    exists o st',
      (exists fuel0, forall fuel, (fuel0 <= fuel)%nat ->
                                  run fuel fs cl = Some o) /\
      (forall fuel o', run fuel fs cl = Some o' -> o' = o) /\
      fatal o /\
      how o =
        (if fst (CompileGraphs gc (batch_grammars (batch_size_of cl) st))
         then Abort else Return (-1)) /\
      tables o = Some st' /\
      fst_writer st' = fst_writer st /\
      num_fail st' = 0.
Proof.
  intros fs cl gc log0 archive st Hsetup Hne Hreach Hrd Hbad.
  set (b := batch_size_of cl) in *.
  destruct (batch_body_die gc b st Hbad)
    as (f & st' & Hbody & Hwr & _ & Hnf & Hlog & Hkind).
  assert (Hone : batch_loop gc b 1 st = Some (inl (f, st'))).
  { cbn [batch_loop]. destruct (fst_reader st); [contradiction |].
    now rewrite Hbody. }
  destruct (batch_reaches_run gc b _ _ Hreach 1%nat _ Hone)
    as [fuel0 Hfuel0].
  destruct (batch_reaches_keeps gc b _ _ Hreach) as [Hnf0 Hlog0].
  cbn [initial_state num_fail log] in Hnf0, Hlog0.
  assert (Hmain : forall fuel,
             run fuel fs cl =
             option_map finish
               (batch_loop gc b fuel (initial_state archive log0))).
  { intros fuel. unfold main. rewrite Hsetup. unfold compile_all. fold b.
    destruct (Z.eqb_spec b 1); [contradiction | reflexivity]. }
  exists (finish (inl (f, st'))), st'. split; [| split].
  - exists fuel0. intros fuel Hle. rewrite Hmain, Hfuel0 by exact Hle.
    reflexivity.
  - intros fuel o' Hrun. rewrite Hmain in Hrun.
    destruct (batch_loop gc b fuel (initial_state archive log0))
      as [r |] eqn:Hr; [| discriminate].
    apply batch_loop_more_fuel with (fuel' := Nat.max fuel fuel0) in Hr;
      [| lia].
    rewrite Hfuel0 in Hr by lia. injection Hr as <-.
    cbn [option_map] in Hrun. now injection Hrun as <-.
  - assert (Hnosum : forall s f', ~ In (LogSummary s f') (log st')).
    { rewrite Hlog, Hlog0.
      exact (setup_log ContextDependency TransitionModel
               TrainingGraphCompiler fs cl gc log0 archive Hsetup). }
    assert (Hrest : fst_writer st' = fst_writer st /\ num_fail st' = 0)
      by (split; congruence).
    destruct f; cbn [finish how tables].
    + assert (Hfalse : fst (CompileGraphs gc (batch_grammars b st)) = false)
        by (now apply Hkind).
      rewrite Hfalse. split; [| auto].
      split; [vm_compute; discriminate |].
      intros st0 [= <-]. exact Hnosum.
    + destruct (fst (CompileGraphs gc (batch_grammars b st))) eqn:Hok.
      * split; [| auto].
        split; [vm_compute; discriminate |].
        intros st0 [= <-]. exact Hnosum.
      * destruct Hkind as [_ Hk]. specialize (Hk eq_refl). discriminate.
Qed.

(** C6.  When the lexicon cannot be opened or does not parse, or a file
    of disambiguation symbols was named and cannot be read, the run ends
    with a status that is not zero before the two tables are opened: no
    utterance has been read and no entry written.  No fuel is needed. *)
Theorem unreadable_resource_ends_run_early :
  forall fuel fs cl,
    ifstream_good fs (GetArg cl 3) = false \/
    VectorFst_Read fs (GetArg cl 3) = None \/
    (disambig_rxfilename_of cl <> EmptyString /\
     ReadIntegerVectorSimple fs (disambig_rxfilename_of cl) = None) ->
    exists t,
      run fuel fs cl = Some {| how := t; tables := None |} /\
      exit_status t <> 0.
Proof.
  intros fuel fs cl Hbad.
  assert (Hearly : forall t, t = Exit 1 \/ t = Return (-1) ->
             exists t', early t = Some {| how := t'; tables := None |} /\
                        exit_status t' <> 0).
  { intros t [-> | ->]; eexists; (split; [reflexivity |]);
      vm_compute; discriminate. }
  unfold main, setup.
  destruct (negb (Nat.eqb (NumArgs cl) 5)); [apply Hearly; auto |].
  destruct (read_tree fs _); [| apply Hearly; auto].
  destruct (read_model fs _); [| apply Hearly; auto].
  destruct (ifstream_good fs (GetArg cl 3)) eqn:Hgood; cbn [negb];
    [| apply Hearly; auto].
  destruct (VectorFst_Read fs (GetArg cl 3)) eqn:Hlex;
    [| apply Hearly; auto].
  destruct Hbad as [Hbad | [Hbad | [Hname Hread]]]; try discriminate.
  unfold read_disambig_syms.
  destruct (String.eqb_spec (disambig_rxfilename_of cl) EmptyString);
    [contradiction |].
  rewrite Hread. apply Hearly; auto.
Qed.

End RunTheorems.

(** ** The summary of a batched run *)

Section BatchCounts.

Variable gc : Compiler.
Variable b : Z.

(** The batched loop counts every graph it writes as a success, whatever
    its start state, and nothing as a failure. *)
Lemma batch_loop_counts : forall fuel st st',
  batch_loop gc b fuel st = Some (inr st') ->
  num_fail st' = num_fail st /\
  exists d : nat,
    length (fst_writer st') = (length (fst_writer st) + d)%nat /\
    (0 <= num_succeed st ->
     num_succeed st + Z.of_nat d <= INT32_MAX ->
     num_succeed st' = num_succeed st + Z.of_nat d).
Proof.
  induction fuel as [| fuel IH]; intros st st' Hrun; [discriminate |].
  cbn [batch_loop] in Hrun. destruct (fst_reader st) as [| e rd].
  - injection Hrun as <-. split; [reflexivity |]. exists O.
    split; [lia |]. intros _ _. lia.
  - destruct (batch_body gc b st) as [st1 | f st1] eqn:Hbody;
      [| discriminate].
    apply batch_body_continue in Hbody
      as (Hf & _ & _ & Hwr1 & Hns1 & _ & Hlen).
    destruct (IH st1 st' Hrun) as (Hf' & d1 & Hd1 & Hcount).
    split; [congruence |].
    set (fsts := snd (CompileGraphs gc (batch_grammars b st))) in *.
    exists (length fsts + d1)%nat. split.
    + rewrite Hd1, Hwr1, length_app, length_combine, <- Hlen. lia.
    + intros Hpos Hmax. unfold INT32_MAX in *.
      rewrite int32_wrap_id in Hns1
        by (unfold is_int32, INT32_MIN, INT32_MAX; lia).
      rewrite Hcount; lia.
Qed.

End BatchCounts.

Section BatchedSummary.

Variables ContextDependency TransitionModel : Type.
Variable TrainingGraphCompiler :
  TransitionModel -> ContextDependency -> VectorFst -> list Z ->
  TrainingGraphCompilerOptions -> Compiler.

(** Whatever the compiler, a batched run that comes to its normal end
    reports no failure, and as many successes as it wrote graphs. *)
Lemma batched_run_reports_no_failure : forall fuel fs cl st,
  batch_size_of cl <> 1 ->
  main ContextDependency TransitionModel TrainingGraphCompiler fuel fs cl =
    Some {| how := Return 0; tables := Some st |} ->
  num_fail st = 0 /\
  (Z.of_nat (length (fst_writer st)) <= INT32_MAX ->
   num_succeed st = Z.of_nat (length (fst_writer st))).
Proof.
  intros fuel fs cl st Hne. unfold main.
  destruct (setup _ _ _ fs cl) as [t | [[gc log0] archive]];
    [discriminate |].
  unfold compile_all. destruct (Z.eqb_spec (batch_size_of cl) 1);
    [contradiction |].
  destruct (batch_loop gc (batch_size_of cl) fuel
              (initial_state archive log0)) as [[[f st1] | st1] |] eqn:Hrun;
    cbn [option_map finish]; try discriminate.
  - destruct f; discriminate.
  - intros [= <-].
    apply batch_loop_counts in Hrun as (Hf & d & Hd & Hcount).
    cbn [initial_state num_fail num_succeed fst_writer length] in *.
    cbn [log_summary num_fail num_succeed fst_writer].
    split; [exact Hf |]. intros Hmax. rewrite Hcount; lia.
Qed.

End BatchedSummary.

Lemma echo_contract : compiler_contract Examples.echo.
Proof.
  split.
  - intros g. cbn. unfold Examples.echo_CompileGraph.
    destruct (has_start g); [discriminate | reflexivity].
  - reflexivity.
Qed.

Lemma echo_keeps_count : keeps_count Examples.echo.
Proof. intros gs. cbn. split; [reflexivity | apply length_map]. Qed.

(** C2 fails in the batched path.  With the default batch size and a
    compiler that keeps to its contract, the archive [k1, k2, k3] whose
    second grammar does not compile is written with an empty graph for
    [k2], and the summary reads 3 succeeded, 0 failed; the same archive
    run with [--batch-size=1] is summed up as 2 succeeded, 1 failed. *)
Theorem batched_summary_counts_failure_as_success :
  fst (CompileGraph Examples.echo empty_fst) = false /\
  (exists st,
      main unit unit (Examples.construct Examples.echo) 4
           (Examples.files Examples.archive3) (Examples.command_line None) =
        Some {| how := Return 0; tables := Some st |} /\
      nth_error (fst_writer st) 1 = Some ("k2"%string, empty_fst) /\
      num_succeed st = 3 /\ num_fail st = 0 /\
      log st = [WarnNoDisambig; LogSummary 3 0]) /\
  (exists st,
      main unit unit (Examples.construct Examples.echo) 4
           (Examples.files Examples.archive3)
           (Examples.command_line (Some 1)) =
        Some {| how := Return 0; tables := Some st |} /\
      nth_error (fst_writer st) 1 = Some ("k2"%string, empty_fst) /\
      num_succeed st = 2 /\ num_fail st = 1 /\
      log st = [WarnNoDisambig; WarnProblem "k2"; LogSummary 2 1]).
Proof.
  split; [reflexivity |].
  split; eexists; (split; [vm_compute; reflexivity |]); cbn; auto.
Qed.

(** ** Weights of the topology inserter *)

Section ZeroScales.

Import Topology.

Variable o : TrainingGraphCompilerOptions.
Hypothesis Htrans : (trans_prob_scale o == 0)%Q.
Hypothesis Hloop : (self_loop_scale o == 0)%Q.

Lemma inserted_weight_zero_scales : forall a,
  (inserted_weight o a == One)%Q.
Proof.
  intros [e | e own]; unfold inserted_weight, self_loop_weight,
    forward_weight, One.
  - rewrite Hloop. apply Qmult_0_l.
  - rewrite Htrans. apply Qmult_0_l.
Qed.

Lemma arc_weight_zero_scales : forall a,
  (arc_weight o a == own_weight a)%Q.
Proof.
  intros a. unfold arc_weight, Times.
  rewrite inserted_weight_zero_scales. unfold One. apply Qplus_0_r.
Qed.

Lemma path_weight_zero_scales : forall p,
  (path_weight o p == own_path_weight p)%Q.
Proof.
  induction p as [| a rest IH]; cbn [path_weight own_path_weight].
  - reflexivity.
  - unfold Times in *. rewrite arc_weight_zero_scales, IH. reflexivity.
Qed.

End ZeroScales.

(** C7.  When both scales are zero, every weight the topology inserter
    contributes, on a self-loop or on a forward arc, is the identity of the
    tropical semiring, and the weight of every path of the decoding graph is
    the weight it has from the inserter's input alone.  Both scales are zero
    in the driver's defaults, which stand unless the command line sets
    them. *)
Theorem zero_scales_insert_identity_weights :
  forall o,
    (trans_prob_scale o == 0)%Q ->
    (self_loop_scale o == 0)%Q ->
    (forall a, (Topology.inserted_weight o a == Topology.One)%Q) /\
    (forall p, (Topology.path_weight o p == Topology.own_path_weight p)%Q) /\
    (trans_prob_scale default_gopts == 0)%Q /\
    (self_loop_scale default_gopts == 0)%Q /\
    (forall cl, opt_transition_scale cl = None ->
                opt_self_loop_scale cl = None ->
                gopts_of cl = default_gopts).
Proof.
  intros o Htrans Hloop.
  split; [now apply inserted_weight_zero_scales |].
  split; [now apply path_weight_zero_scales |].
  split; [reflexivity |]. split; [reflexivity |].
  intros cl Ht Hs. unfold gopts_of. rewrite Ht, Hs. reflexivity.
Qed.

(** ** The theorems on concrete runs *)

Section Instances.

Import Examples.

Local Abbreviation demo_main gc :=
  (main unit unit (construct gc)).

Lemma batched_run_writes_the_sequential_graphs_instance :
  exists st1 stb,
    demo_main echo 4 (files archive3)
              (with_batch_size (command_line None) 1) =
      Some {| how := Return 0; tables := Some st1 |} /\
    demo_main echo 4 (files archive3)
              (with_batch_size (command_line None) 2) =
      Some {| how := Return 0; tables := Some stb |} /\
    fst_writer stb = fst_writer st1 /\
    keys_of (fst_writer st1) = keys_of archive3.
Proof.
  apply (batched_run_writes_the_sequential_graphs
           unit unit (construct echo) (files archive3) (command_line None)
           echo [WarnNoDisambig] archive3 2 4%nat).
  - reflexivity.
  - exact echo_contract.
  - lia.
  - cbn. lia.
Defined.

Lemma failed_utterance_is_written_empty_instance :
  fst (CompileGraph echo empty_fst) = false /\
  exists st decode_fst,
    demo_main echo 0 (files archive3) (command_line (Some 1)) =
      Some {| how := Return 0; tables := Some st |} /\
    length (fst_writer st) = length archive3 /\
    nth_error (fst_writer st) 1 = Some ("k2"%string, decode_fst) /\
    states decode_fst = [] /\
    Start decode_fst = kNoStateId.
Proof.
  split; [reflexivity |].
  apply (failed_utterance_is_written_empty
           unit unit (construct echo) (files archive3)
           (command_line (Some 1)) echo [WarnNoDisambig] archive3 0%nat
           1%nat "k2"%string empty_fst);
    reflexivity.
Defined.

Lemma output_keys_are_input_keys_instance :
  exists st,
    demo_main echo 4 (files archive3) (command_line (Some 2)) =
      Some {| how := Return 0; tables := Some st |} /\
    keys_of (fst_writer st) = ["k1"; "k2"; "k3"]%string /\
    length (fst_writer st) = 3%nat.
Proof.
  apply (output_keys_are_input_keys
           unit unit (construct echo) (files archive3)
           (command_line (Some 2)) echo [WarnNoDisambig] archive3 4%nat).
  - reflexivity.
  - cbn. lia.
  - intros _. exact echo_keeps_count.
  - cbn. lia.
Defined.

Lemma batch_level_failure_is_fatal_instance :
  exists o st',
    (exists fuel0, forall fuel, (fuel0 <= fuel)%nat ->
       demo_main refusing fuel (files archive3) (command_line (Some 2)) =
         Some o) /\
    (forall fuel o',
       demo_main refusing fuel (files archive3) (command_line (Some 2)) =
         Some o' -> o' = o) /\
    fatal o /\
    how o = Return (-1) /\
    tables o = Some st' /\
    fst_writer st' = [] /\
    num_fail st' = 0.
Proof.
  apply (batch_level_failure_is_fatal
           unit unit (construct refusing) (files archive3)
           (command_line (Some 2)) refusing [WarnNoDisambig] archive3
           (initial_state archive3 [WarnNoDisambig])).
  - reflexivity.
  - cbn. lia.
  - apply reaches_refl.
  - discriminate.
  - left. reflexivity.
Defined.

Lemma unreadable_resource_ends_run_early_instance :
  exists t,
    demo_main echo 0 (files_bad_lexicon archive3) (command_line None) =
      Some {| how := t; tables := None |} /\
    exit_status t <> 0.
Proof.
  apply (unreadable_resource_ends_run_early
           unit unit (construct echo) 0%nat (files_bad_lexicon archive3)
           (command_line None)).
  right. left. reflexivity.
Defined.

Lemma zero_scales_insert_identity_weights_instance :
  (forall a, (Topology.inserted_weight (gopts_of (command_line None)) a
              == Topology.One)%Q) /\
  (forall p, (Topology.path_weight (gopts_of (command_line None)) p
              == Topology.own_path_weight p)%Q) /\
  (trans_prob_scale default_gopts == 0)%Q /\
  (self_loop_scale default_gopts == 0)%Q /\
  (forall cl, opt_transition_scale cl = None ->
              opt_self_loop_scale cl = None ->
              gopts_of cl = default_gopts).
Proof.
  apply (zero_scales_insert_identity_weights
           (gopts_of (command_line None)));
    reflexivity.
Defined.

Lemma batched_loop_ends_iff_batch_size_positive_instance :
  ((forall archive log0, exists fuel r,
       compile_all echo 0 fuel (initial_state archive log0) = Some r)
   <-> 1 <= 0) /\
  (0 <= 0 ->
   forall archive log0, archive <> [] ->
     fill_batch 0 archive [] [] = ([], [], archive) /\
     batch_body echo 0 (initial_state archive log0) =
       Continue (initial_state archive log0) /\
     forall fuel,
       compile_all echo 0 fuel (initial_state archive log0) = None).
Proof.
  apply (batched_loop_ends_iff_batch_size_positive echo 0).
  - discriminate.
  - reflexivity.
Defined.

Lemma single_path_counts_by_start_state_instance :
  exists st,
    demo_main echo 0 (files archive3) (command_line (Some 1)) =
      Some {| how := Return 0; tables := Some st |} /\
    fst_writer st = single_output echo archive3 /\
    num_succeed st = count_started (fst_writer st) /\
    num_fail st = count_empty (fst_writer st).
Proof.
  apply (single_path_counts_by_start_state
           unit unit (construct echo) (files archive3)
           (command_line (Some 1)) echo [WarnNoDisambig] archive3 0%nat).
  - reflexivity.
  - reflexivity.
  - cbn. unfold INT32_MAX. lia.
Defined.

End Instances.

(** * Further properties of the driver *)

(** ** Keys through the batched loop *)

Lemma keys_of_app : forall es es' : list Entry,
  keys_of (es ++ es') = keys_of es ++ keys_of es'.
Proof. intros es es'. unfold keys_of. apply map_app. Qed.

Lemma keys_of_length : forall es : list Entry,
  length (keys_of es) = length es.
Proof. intros es. unfold keys_of. apply length_map. Qed.

Lemma keys_of_combine : forall (keys : list string) (fsts : list VectorFst),
  length fsts = length keys -> keys_of (combine keys fsts) = keys.
Proof.
  induction keys as [| k keys IH]; intros [| f fsts] Hlen; cbn in *;
    try discriminate; [reflexivity |].
  f_equal. apply IH. lia.
Qed.

Section BatchKeys.

Variable gc : Compiler.
Variable b : Z.

(** The keys of a batch and of what the inner loop leaves are the keys the
    reader held. *)
Lemma batch_keys_split : forall st,
  keys_of (fst_reader st) =
  batch_keys b st ++ keys_of (snd (fill_batch b (fst_reader st) [] [])).
Proof.
  intros st. unfold batch_keys.
  destruct (fill_batch_split b (fst_reader st) [] []) as [n Hn].
  rewrite Hn. cbn [fst snd app].
  rewrite <- (firstn_skipn n (fst_reader st)) at 1. apply keys_of_app.
Qed.

Lemma batch_body_continue_keys : forall st st',
  batch_body gc b st = Continue st' ->
  keys_of (fst_writer st') ++ keys_of (fst_reader st') =
  keys_of (fst_writer st) ++ keys_of (fst_reader st).
Proof.
  intros st st' Hbody.
  apply batch_body_continue in Hbody
    as (_ & _ & Hrd & Hwr & _ & _ & Hlen).
  rewrite Hwr, Hrd, keys_of_app, keys_of_combine by exact Hlen.
  rewrite (batch_keys_split st), app_assoc. reflexivity.
Qed.

Lemma batch_body_die_inv : forall st f st',
  batch_body gc b st = Die f st' ->
  fst_writer st' = fst_writer st /\
  fst_reader st' = snd (fill_batch b (fst_reader st) [] []) /\
  num_succeed st' = num_succeed st /\
  num_fail st' = num_fail st /\
  log st' = log st.
Proof.
  intros st f st'. unfold batch_body.
  destruct (fill_batch b (fst_reader st) [] []) as [[keys grammars] rd'].
  destruct (CompileGraphs gc grammars) as [[|] fsts]; cbn [negb].
  - destruct (negb (Nat.eqb (length fsts) (length keys)));
      [| discriminate].
    intros [= _ <-]. cbn. auto.
  - intros [= _ <-]. cbn. auto.
Qed.

(** Where the loop stands when it is left: at its normal end the reader is
    empty and the keys written are the keys that were to be read; when a
    batch is fatal, what was written, the batch and what is unread make up
    those keys. *)
Lemma batch_loop_keys : forall fuel st r,
  batch_loop gc b fuel st = Some r ->
  match r with
  | inr st' =>
      fst_reader st' = [] /\
      keys_of (fst_writer st') =
        keys_of (fst_writer st) ++ keys_of (fst_reader st) /\
      log st' = log st
  | inl (f, st') =>
      exists dropped,
        keys_of (fst_writer st) ++ keys_of (fst_reader st) =
          keys_of (fst_writer st') ++ dropped ++ keys_of (fst_reader st') /\
        log st' = log st /\ num_fail st' = num_fail st
  end.
Proof.
  induction fuel as [| fuel IH]; intros st r Hrun; [discriminate |].
  cbn [batch_loop] in Hrun. destruct (fst_reader st) as [| e rd] eqn:Hrd.
  - injection Hrun as <-. rewrite Hrd. cbn. rewrite app_nil_r. auto.
  - destruct (batch_body gc b st) as [st1 | f st1] eqn:Hbody.
    + pose proof (batch_body_continue_keys st st1 Hbody) as Hkeys.
      apply batch_body_continue in Hbody as (Hf & Hl & _).
      specialize (IH st1 r Hrun). rewrite Hrd in Hkeys.
      destruct r as [[f st'] | st'].
      * destruct IH as (dropped & Hd & Hl' & Hf'). exists dropped.
        rewrite <- Hkeys, Hd. split; [reflexivity | split; congruence].
      * destruct IH as (Hdone & Hk & Hl').
        rewrite <- Hkeys. split; [exact Hdone | split; congruence].
    + injection Hrun as <-.
      pose proof (batch_keys_split st) as Hsplit.
      apply batch_body_die_inv in Hbody as (Hwr & Hrd1 & _ & Hf & Hl).
      exists (batch_keys b st). rewrite Hwr, Hrd1, <- Hrd, Hsplit.
      auto.
Qed.

End BatchKeys.

(** ** The log of the loop for [batch_size == 1] *)

Section SequentialLog.

Variable gc : Compiler.

Lemma sequential_body_log : forall key grammar st,
  log (sequential_body gc key grammar st) =
  log st ++ warnings_of gc [(key, grammar)].
Proof.
  intros key grammar st. unfold sequential_body, warnings_of. cbn.
  destruct (CompileGraph gc grammar) as [[|] compiled]; cbn.
  - now rewrite app_nil_r.
  - reflexivity.
Qed.

Lemma warnings_of_cons : forall e rd,
  warnings_of gc (e :: rd) = warnings_of gc [e] ++ warnings_of gc rd.
Proof.
  intros e rd. unfold warnings_of. cbn.
  destruct (negb (fst (CompileGraph gc (snd e)))); reflexivity.
Qed.

Lemma sequential_loop_log : forall rd st,
  log (sequential_loop gc rd st) = log st ++ warnings_of gc rd.
Proof.
  induction rd as [| [key grammar] rd IH]; intros st; cbn [sequential_loop].
  - cbn. now rewrite app_nil_r.
  - rewrite IH. cbn [reader_Next log].
    rewrite sequential_body_log, (warnings_of_cons (key, grammar) rd).
    now rewrite app_assoc.
Qed.

(** A warning goes with a graph emptied by [DeleteStates], which counts as
    a failure; a failure need not have a warning. *)
Lemma warnings_le_failed : forall rd,
  Z.of_nat (length (warnings_of gc rd)) <= count_empty (single_output gc rd).
Proof.
  intros rd. unfold warnings_of, count_empty. rewrite length_map.
  apply inj_le. induction rd as [| e rd IH]; [cbn; lia |].
  change (single_output gc (e :: rd))
    with ((fst e, written_single gc (snd e)) :: single_output gc rd).
  cbn [filter snd].
  destruct (fst (CompileGraph gc (snd e))) eqn:Hok; cbn [negb].
  - destruct (negb (has_start (written_single gc (snd e))));
      cbn [length]; lia.
  - rewrite (written_single_failure gc (snd e) Hok).
    change (negb (has_start empty_fst)) with true. cbn [length]. lia.
Qed.

End SequentialLog.

(** ** What the end of a run tells *)

Section RunEnds.

Variables ContextDependency TransitionModel : Type.
Variable TrainingGraphCompiler :
  TransitionModel -> ContextDependency -> VectorFst -> list Z ->
  TrainingGraphCompilerOptions -> Compiler.

Local Abbreviation run :=
  (main ContextDependency TransitionModel TrainingGraphCompiler).
Local Abbreviation set_up :=
  (setup ContextDependency TransitionModel TrainingGraphCompiler).

Lemma run_end_inv : forall fuel fs cl gc log0 archive o,
  set_up fs cl = inr (gc, log0, archive) ->
  run fuel fs cl = Some o ->
  exists r,
    compile_all gc (batch_size_of cl) fuel (initial_state archive log0) =
      Some r /\
    o = finish r.
Proof.
  intros fuel fs cl gc log0 archive o Hsetup. unfold main. rewrite Hsetup.
  destruct (compile_all gc (batch_size_of cl) fuel
              (initial_state archive log0)) as [r |]; [| discriminate].
  intros [= <-]. eauto.
Qed.

Lemma normal_end_inv : forall fuel fs cl gc log0 archive st,
  set_up fs cl = inr (gc, log0, archive) ->
  run fuel fs cl = Some {| how := Return 0; tables := Some st |} ->
  exists st1,
    compile_all gc (batch_size_of cl) fuel (initial_state archive log0) =
      Some (inr st1) /\
    st = log_summary st1.
Proof.
  intros fuel fs cl gc log0 archive st Hsetup Hrun.
  destruct (run_end_inv fuel fs cl gc log0 archive _ Hsetup Hrun)
    as ([[[|] st1] | st1] & Hloop & Hfin); cbn in Hfin;
    try discriminate.
  injection Hfin as ->. eauto.
Qed.

(** The state in which the loops are left at their normal end. *)
Lemma loops_normal_end : forall fuel gc b archive log0 st1,
  compile_all gc b fuel (initial_state archive log0) = Some (inr st1) ->
  fst_reader st1 = [] /\
  keys_of (fst_writer st1) = keys_of archive /\
  (Z.of_nat (length archive) <= INT32_MAX ->
   0 <= num_succeed st1 /\ 0 <= num_fail st1 /\
   num_succeed st1 + num_fail st1 = Z.of_nat (length archive)) /\
  (b <> 1 ->
   num_fail st1 = 0 /\ log st1 = log0 /\
   (Z.of_nat (length archive) <= INT32_MAX ->
    num_succeed st1 = Z.of_nat (length archive))).
Proof.
  intros fuel gc b archive log0 st1. unfold compile_all.
  destruct (Z.eqb_spec b 1) as [-> | Hne].
  - intros [= <-]. cbn [initial_state fst_reader].
    set (st0 := initial_state archive log0).
    destruct (sequential_loop_tables gc archive st0 eq_refl) as [Hrd Hwr].
    cbn [st0 initial_state fst_writer app] in Hwr.
    split; [exact Hrd |].
    split; [rewrite Hwr; apply single_output_keys |].
    split; [| intros []; reflexivity].
    intros Hmax.
    destruct (sequential_loop_counts gc archive st0) as [Hs Hf];
      cbn [st0 initial_state num_succeed num_fail]; try lia.
    cbn [st0 initial_state num_succeed num_fail] in Hs, Hf.
    pose proof (count_split (single_output gc archive)) as Hsplit.
    unfold single_output in Hsplit at 3. rewrite length_map in Hsplit.
    unfold count_started, count_empty in *. lia.
  - intros Hrun.
    pose proof (batch_loop_keys gc b fuel _ _ Hrun) as (Hrd & Hk & Hl).
    apply batch_loop_counts in Hrun as (Hf & d & Hd & Hcount).
    cbn [initial_state fst_writer fst_reader log num_succeed num_fail
         length] in *.
    change (keys_of []) with (@nil string) in Hk. cbn [app] in Hk.
    assert (Hlen : d = length archive).
    { rewrite <- (keys_of_length archive), <- Hk, keys_of_length. lia. }
    subst d.
    split; [exact Hrd |]. split; [exact Hk |]. split.
    + intros Hmax. rewrite Hcount, Hf; lia.
    + intros _. split; [exact Hf |]. split; [exact Hl |].
      intros Hmax. rewrite Hcount; lia.
Qed.

(** X1.  A run that returns 0 has consumed the whole input archive, and the
    keys of its output archive are the keys of the input, in the same order,
    one entry for each: whatever the batch size and whatever the compiler
    answered. *)
Theorem normal_end_has_every_key :
  forall fuel fs cl gc log0 archive st,
    set_up fs cl = inr (gc, log0, archive) ->
    run fuel fs cl = Some {| how := Return 0; tables := Some st |} ->
    fst_reader st = [] /\
    keys_of (fst_writer st) = keys_of archive /\
    length (fst_writer st) = length archive.
Proof.
  intros fuel fs cl gc log0 archive st Hsetup Hrun.
  destruct (normal_end_inv fuel fs cl gc log0 archive st Hsetup Hrun)
    as (st1 & Hloop & ->).
  apply loops_normal_end in Hloop as (Hrd & Hk & _).
  cbn [log_summary fst_reader fst_writer].
  split; [exact Hrd |]. split; [exact Hk |].
  rewrite <- (keys_of_length (fst_writer st1)), Hk. apply keys_of_length.
Qed.

(** X2.  However a run ends once the tables are open, the keys it has
    written are the first keys of the input archive, in order: the input
    keys are the written keys, then the keys of a batch that was dropped,
    then the keys left unread.  Nothing is dropped when the run returns 0. *)
Theorem written_keys_are_a_prefix :
  forall fuel fs cl gc log0 archive o st,
    set_up fs cl = inr (gc, log0, archive) ->
    run fuel fs cl = Some o ->
    tables o = Some st ->
    exists dropped,
      keys_of archive =
        keys_of (fst_writer st) ++ dropped ++ keys_of (fst_reader st) /\
      (how o = Return 0 -> dropped = []) /\
      (batch_size_of cl = 1 -> dropped = []).
Proof.
  intros fuel fs cl gc log0 archive o st Hsetup Hrun Htab.
  destruct (run_end_inv fuel fs cl gc log0 archive o Hsetup Hrun)
    as (r & Hloop & ->).
  destruct r as [[f st1] | st1].
  - assert (Hst : st1 = st) by (destruct f; cbn in Htab; congruence).
    subst st1.
    assert (Hne : batch_size_of cl <> 1).
    { intros Hone. unfold compile_all in Hloop. rewrite Hone in Hloop.
      discriminate. }
    unfold compile_all in Hloop.
    destruct (Z.eqb_spec (batch_size_of cl) 1); [contradiction |].
    apply batch_loop_keys in Hloop as (dropped & Hd & _).
    cbn [initial_state fst_writer fst_reader] in Hd.
    change (keys_of []) with (@nil string) in Hd. cbn [app] in Hd.
    exists dropped. split; [exact Hd |].
    split; [destruct f; discriminate | contradiction].
  - cbn in Htab. injection Htab as <-.
    apply loops_normal_end in Hloop as (Hrd & Hk & _).
    exists []. cbn [log_summary fst_reader fst_writer].
    rewrite Hrd, Hk. cbn. rewrite app_nil_r. auto.
Qed.

(** X3.  When a run returns 0 on an archive of at most INT_MAX utterances,
    the two counters of the summary, which is the last line logged, add up
    to the number of utterances. *)
Theorem summary_counts_every_utterance :
  forall fuel fs cl gc log0 archive st,
    set_up fs cl = inr (gc, log0, archive) ->
    run fuel fs cl = Some {| how := Return 0; tables := Some st |} ->
    Z.of_nat (length archive) <= INT32_MAX ->
    0 <= num_succeed st /\ 0 <= num_fail st /\
    num_succeed st + num_fail st = Z.of_nat (length archive) /\
    exists earlier,
      log st = earlier ++ [LogSummary (num_succeed st) (num_fail st)].
Proof.
  intros fuel fs cl gc log0 archive st Hsetup Hrun Hmax.
  destruct (normal_end_inv fuel fs cl gc log0 archive st Hsetup Hrun)
    as (st1 & Hloop & ->).
  apply loops_normal_end in Hloop as (_ & _ & Hcount & _).
  destruct (Hcount Hmax) as (Hs & Hf & Hsum).
  cbn [log_summary num_succeed num_fail log]. eauto.
Qed.

(** X4.  In the batched path a run that returns 0 logs nothing for any
    single utterance and sums up with no failure: its log is the log of the
    set-up followed by the summary, which counts every utterance as
    succeeded, whatever graphs were written. *)
Theorem batched_summary_has_no_failure :
  forall fuel fs cl gc log0 archive st,
    set_up fs cl = inr (gc, log0, archive) ->
    batch_size_of cl <> 1 ->
    run fuel fs cl = Some {| how := Return 0; tables := Some st |} ->
    Z.of_nat (length archive) <= INT32_MAX ->
    log st = log0 ++ [LogSummary (Z.of_nat (length archive)) 0] /\
    num_succeed st = Z.of_nat (length archive) /\
    num_fail st = 0.
Proof.
  intros fuel fs cl gc log0 archive st Hsetup Hne Hrun Hmax.
  destruct (normal_end_inv fuel fs cl gc log0 archive st Hsetup Hrun)
    as (st1 & Hloop & ->).
  apply loops_normal_end in Hloop as (_ & _ & _ & Hbatched).
  destruct (Hbatched Hne) as (Hf & Hl & Hs). specialize (Hs Hmax).
  cbn [log_summary num_succeed num_fail log].
  rewrite Hl, Hs, Hf. auto.
Qed.

(** X5.  With [batch_size == 1] the log of a run is the log of the set-up,
    then one warning for each utterance whose compilation returned false, in
    the order of the archive, then the summary.  There are at most as many
    warnings as failures counted: a graph that compiles to no start state
    is a failure without a warning. *)
Theorem single_path_log :
  forall fuel fs cl gc log0 archive,
    set_up fs cl = inr (gc, log0, archive) ->
    batch_size_of cl = 1 ->
    exists st,
      run fuel fs cl = Some {| how := Return 0; tables := Some st |} /\
      log st = log0 ++ warnings_of gc archive ++
               [LogSummary (num_succeed st) (num_fail st)] /\
      (Z.of_nat (length archive) <= INT32_MAX ->
       Z.of_nat (length (warnings_of gc archive)) <= num_fail st).
Proof.
  intros fuel fs cl gc log0 archive Hsetup Hone.
  unfold main. rewrite Hsetup. unfold compile_all. rewrite Hone.
  cbn [Z.eqb Pos.eqb option_map finish].
  change (fst_reader (initial_state archive log0)) with archive.
  set (st0 := initial_state archive log0).
  eexists. split; [reflexivity |].
  cbn [log_summary log num_succeed num_fail]. split.
  - rewrite sequential_loop_log. cbn [st0 initial_state log].
    now rewrite app_assoc.
  - intros Hmax.
    destruct (sequential_loop_counts gc archive st0) as [_ Hf];
      cbn [st0 initial_state num_succeed num_fail]; try lia.
    rewrite Hf. cbn [st0 initial_state num_fail].
    pose proof (warnings_le_failed gc archive). lia.
Qed.

End RunEnds.

(** ** The size of a batch *)

Lemma fill_batch_exact : forall b,
  b <= INT32_MAX ->
  forall rd keys grammars,
    Z.of_nat (length grammars) <= b ->
    fill_batch b rd keys grammars =
    (keys ++
       map fst (firstn (Z.to_nat (b - Z.of_nat (length grammars))) rd),
     grammars ++
       map snd (firstn (Z.to_nat (b - Z.of_nat (length grammars))) rd),
     skipn (Z.to_nat (b - Z.of_nat (length grammars))) rd).
Proof.
  intros b Hmax. unfold INT32_MAX in Hmax.
  induction rd as [| [key value] rd IH]; intros keys grammars Hlen.
  - cbn [fill_batch]. rewrite firstn_nil, skipn_nil. cbn.
    now rewrite !app_nil_r.
  - cbn [fill_batch].
    rewrite int32_wrap_id by (unfold is_int32, INT32_MIN, INT32_MAX; lia).
    destruct (Z.ltb_spec (Z.of_nat (length grammars)) b) as [Hlt | Hge].
    + rewrite IH by (rewrite length_app; cbn; lia).
      rewrite length_app. cbn [length].
      replace (Z.to_nat (b - Z.of_nat (length grammars)))
        with (S (Z.to_nat (b - Z.of_nat (length grammars + 1)))) by lia.
      cbn [firstn skipn map fst snd]. now rewrite <- !app_assoc.
    + replace (Z.to_nat (b - Z.of_nat (length grammars))) with O by lia.
      cbn. now rewrite !app_nil_r.
Qed.

(** X6.  For a batch size in the range of [int32], a batch is made of the
    first [batch_size] entries the reader holds, or of all of them when
    there are fewer, and of none when the batch size is not positive; the
    reader is left after them.  No batch is larger than the batch size. *)
Theorem batch_is_the_next_batch_size_entries :
  forall b st,
    b <= INT32_MAX ->
    batch_keys b st = keys_of (firstn (Z.to_nat b) (fst_reader st)) /\
    batch_grammars b st = map snd (firstn (Z.to_nat b) (fst_reader st)) /\
    snd (fill_batch b (fst_reader st) [] []) =
      skipn (Z.to_nat b) (fst_reader st) /\
    length (batch_grammars b st) =
      Nat.min (Z.to_nat b) (length (fst_reader st)).
Proof.
  intros b st Hmax. unfold batch_keys, batch_grammars.
  assert (Hfill : fill_batch b (fst_reader st) [] [] =
                  (keys_of (firstn (Z.to_nat b) (fst_reader st)),
                   map snd (firstn (Z.to_nat b) (fst_reader st)),
                   skipn (Z.to_nat b) (fst_reader st))).
  { destruct (Z.le_gt_cases b 0) as [Hle | Hgt].
    - rewrite fill_batch_none by exact Hle.
      replace (Z.to_nat b) with O by lia. reflexivity.
    - rewrite (fill_batch_exact b Hmax) by (cbn; lia).
      cbn [length app]. rewrite Z.sub_0_r. reflexivity. }
  rewrite Hfill. cbn [fst snd].
  repeat split. rewrite length_map. apply length_firstn.
Qed.

(** ** Leaving before the tables are opened *)

Section SetupEnds.

Variables ContextDependency TransitionModel : Type.
Variable TrainingGraphCompiler :
  TransitionModel -> ContextDependency -> VectorFst -> list Z ->
  TrainingGraphCompilerOptions -> Compiler.

Local Abbreviation run :=
  (main ContextDependency TransitionModel TrainingGraphCompiler).
Local Abbreviation set_up :=
  (setup ContextDependency TransitionModel TrainingGraphCompiler).

Lemma read_disambig_syms_none :
  forall (fs : FileSystem ContextDependency TransitionModel) cl,
    read_disambig_syms ContextDependency TransitionModel fs cl = None <->
    disambig_rxfilename_of cl <> EmptyString /\
    ReadIntegerVectorSimple fs (disambig_rxfilename_of cl) = None.
Proof.
  intros fs cl. unfold read_disambig_syms.
  destruct (String.eqb_spec (disambig_rxfilename_of cl) EmptyString)
    as [Hnone | Hnamed].
  - split; [discriminate | intros [Hne _]; contradiction].
  - tauto.
Qed.

(** How the set-up can fail: with [exit(1)] on a usage or lexicon error,
    with the exception handler's -1 for the other resources. *)
Lemma setup_fails : forall fs cl t,
  set_up fs cl = inl t ->
  cannot_set_up fs cl /\
  (t = Return (-1) \/
   t = Exit 1 /\
   (NumArgs cl <> 5%nat \/ ifstream_good fs (GetArg cl 3) = false \/
    VectorFst_Read fs (GetArg cl 3) = None)).
Proof.
  intros fs cl t. unfold setup, cannot_set_up.
  destruct (Nat.eqb_spec (NumArgs cl) 5) as [Hargs | Hargs]; cbn [negb];
    [| intros [= <-]; tauto].
  destruct (read_tree fs (GetArg cl 1)) eqn:Htree;
    [| intros [= <-]; tauto].
  destruct (read_model fs (GetArg cl 2)) eqn:Hmodel;
    [| intros [= <-]; tauto].
  destruct (ifstream_good fs (GetArg cl 3)) eqn:Hgood; cbn [negb];
    [| intros [= <-]; tauto].
  destruct (VectorFst_Read fs (GetArg cl 3)) eqn:Hlex;
    [| intros [= <-]; tauto].
  destruct (read_disambig_syms _ _ fs cl) eqn:Hsyms; [discriminate |].
  apply read_disambig_syms_none in Hsyms. intros [= <-]. tauto.
Qed.

Lemma setup_succeeds : forall fs cl gc log0 archive,
  set_up fs cl = inr (gc, log0, archive) -> ~ cannot_set_up fs cl.
Proof.
  intros fs cl gc log0 archive. unfold setup, cannot_set_up.
  destruct (Nat.eqb_spec (NumArgs cl) 5) as [Hargs | Hargs]; cbn [negb];
    [| discriminate].
  destruct (read_tree fs (GetArg cl 1)) eqn:Htree; [| discriminate].
  destruct (read_model fs (GetArg cl 2)) eqn:Hmodel; [| discriminate].
  destruct (ifstream_good fs (GetArg cl 3)) eqn:Hgood; cbn [negb];
    [| discriminate].
  destruct (VectorFst_Read fs (GetArg cl 3)) eqn:Hlex; [| discriminate].
  destruct (read_disambig_syms _ _ fs cl) eqn:Hsyms; [| discriminate].
  intros _ [H | [H | [H | [H | [H | H]]]]]; try congruence.
  apply read_disambig_syms_none in H. congruence.
Qed.

Lemma setup_usage : forall fs cl,
  NumArgs cl <> 5%nat -> set_up fs cl = inl (Exit 1).
Proof.
  intros fs cl Hargs. unfold setup.
  destruct (Nat.eqb_spec (NumArgs cl) 5); [contradiction | reflexivity].
Qed.

(** X7.  A run whose command line does not have five arguments, or one of
    whose resources cannot be read (the tree, the model, the lexicon, opened
    and parsed, or a file of disambiguation symbols that was named), ends
    before the two tables are opened, by [exit(1)] or by the exception
    handler's return of -1: the status is not zero, and no fuel is needed.
    With a wrong number of arguments the end is [exit(1)], whatever the
    files hold. *)
Theorem cannot_set_up_ends_run_early :
  forall fuel fs cl,
    cannot_set_up fs cl ->
    exists t,
      run fuel fs cl = Some {| how := t; tables := None |} /\
      exit_status t <> 0 /\
      (t = Exit 1 \/ t = Return (-1)) /\
      (NumArgs cl <> 5%nat -> t = Exit 1).
Proof.
  intros fuel fs cl Hbad. unfold main.
  destruct (set_up fs cl) as [t | [[gc log0] archive]] eqn:Hsetup.
  - exists t. split; [reflexivity |].
    assert (Husage : NumArgs cl <> 5%nat -> t = Exit 1).
    { intros Hargs. rewrite (setup_usage fs cl Hargs) in Hsetup.
      congruence. }
    apply setup_fails in Hsetup as [_ [-> | [-> _]]].
    + split; [vm_compute; discriminate |]. auto.
    + split; [vm_compute; discriminate |]. auto.
  - exfalso. exact (setup_succeeds fs cl gc log0 archive Hsetup Hbad).
Qed.

(** X8.  On an empty input archive the run, once set up, returns 0 with an
    empty output archive and the summary 0 succeeded, 0 failed, for every
    batch size, the ones that are not positive among them, and without a
    call to the compiler. *)
Theorem empty_archive_run :
  forall fuel fs cl gc log0,
    set_up fs cl = inr (gc, log0, []) ->
    (0 < fuel)%nat ->
    run fuel fs cl =
      Some {| how := Return 0;
              tables := Some (log_summary (initial_state [] log0)) |} /\
    log_summary (initial_state [] log0) =
      {| fst_reader := []; fst_writer := []; num_succeed := 0;
         num_fail := 0; log := log0 ++ [LogSummary 0 0] |}.
Proof.
  intros fuel fs cl gc log0 Hsetup Hfuel. split; [| reflexivity]. unfold main. rewrite Hsetup.
  unfold compile_all. destruct (batch_size_of cl =? 1); [reflexivity |].
  destruct fuel as [| fuel]; [lia | reflexivity].
Qed.

(** X10.  In the batched path, an archive that fits into one batch is
    compiled by one call of [CompileGraphs] on all its grammars, in order:
    when that call succeeds with one graph for each, the output archive
    pairs the keys of the input with the graphs of the call, place by
    place. *)
Theorem small_archive_is_one_batch :
  forall fuel fs cl gc log0 archive fsts,
    set_up fs cl = inr (gc, log0, archive) ->
    batch_size_of cl <> 1 ->
    Z.of_nat (length archive) <= batch_size_of cl <= INT32_MAX ->
    (2 <= fuel)%nat ->
    CompileGraphs gc (map snd archive) = (true, fsts) ->
    length fsts = length archive ->
    exists st,
      run fuel fs cl = Some {| how := Return 0; tables := Some st |} /\
      fst_writer st = combine (keys_of archive) fsts.
Proof.
  intros fuel fs cl gc log0 archive fsts Hsetup Hne [Hfits Hmax] Hfuel
         Hcall Hlen.
  unfold main. rewrite Hsetup. unfold compile_all.
  destruct (Z.eqb_spec (batch_size_of cl) 1); [contradiction |].
  destruct fuel as [| [| fuel]]; try lia.
  destruct archive as [| e archive].
  - destruct fsts; [| discriminate]. eexists. split; reflexivity.
  - set (rd := e :: archive) in *.
    assert (Hfill : fill_batch (batch_size_of cl) rd [] [] =
                    (keys_of rd, map snd rd, [])).
    { rewrite (fill_batch_exact (batch_size_of cl) Hmax) by (cbn; lia).
      cbn [length app]. rewrite Z.sub_0_r.
      rewrite firstn_all2, skipn_all2 by lia. reflexivity. }
    assert (Hbody : batch_body gc (batch_size_of cl)
                      (initial_state rd log0) =
                    Continue
                      {| fst_reader := [];
                         fst_writer := [] ++ combine (keys_of rd) fsts;
                         num_succeed :=
                           int32_wrap (0 + Z.of_nat (length fsts));
                         num_fail := 0; log := log0 |}).
    { unfold batch_body. cbn [initial_state fst_reader].
      rewrite Hfill, Hcall. cbn [negb].
      rewrite Hlen, keys_of_length, Nat.eqb_refl. reflexivity. }
    cbn [batch_loop initial_state fst_reader]. subst rd.
    cbn [initial_state] in Hbody. rewrite Hbody.
    cbn [fst_reader option_map finish log_summary].
    eexists. split; reflexivity.
Qed.

End SetupEnds.

(** ** The further properties on concrete runs *)

Section FurtherInstances.

Import Examples.

Local Abbreviation demo_main gc :=
  (main unit unit (construct gc)).

Lemma normal_end_has_every_key_instance :
  exists st,
    demo_main echo 4 (files archive3) (command_line (Some 2)) =
      Some {| how := Return 0; tables := Some st |} /\
    fst_reader st = [] /\
    keys_of (fst_writer st) = keys_of archive3 /\
    length (fst_writer st) = length archive3.
Proof.
  eexists. split; [reflexivity |].
  apply (normal_end_has_every_key
           unit unit (construct echo) 4%nat (files archive3)
           (command_line (Some 2)) echo [WarnNoDisambig] archive3);
    reflexivity.
Defined.

Lemma written_keys_are_a_prefix_instance :
  exists o st,
    demo_main refusing 4 (files archive3) (command_line (Some 2)) = Some o /\
    tables o = Some st /\
    exists dropped,
      keys_of archive3 =
        keys_of (fst_writer st) ++ dropped ++ keys_of (fst_reader st) /\
      (how o = Return 0 -> dropped = []) /\
      (batch_size_of (command_line (Some 2)) = 1 -> dropped = []).
Proof.
  eexists. eexists. split; [reflexivity |]. split; [reflexivity |].
  apply (written_keys_are_a_prefix
           unit unit (construct refusing) 4%nat (files archive3)
           (command_line (Some 2)) refusing [WarnNoDisambig] archive3);
    reflexivity.
Defined.

Lemma summary_counts_every_utterance_instance :
  exists st,
    demo_main echo 0 (files archive3) (command_line (Some 1)) =
      Some {| how := Return 0; tables := Some st |} /\
    0 <= num_succeed st /\ 0 <= num_fail st /\
    num_succeed st + num_fail st = Z.of_nat (length archive3) /\
    exists earlier,
      log st = earlier ++ [LogSummary (num_succeed st) (num_fail st)].
Proof.
  eexists. split; [reflexivity |].
  apply (summary_counts_every_utterance
           unit unit (construct echo) 0%nat (files archive3)
           (command_line (Some 1)) echo [WarnNoDisambig] archive3).
  - reflexivity.
  - reflexivity.
  - cbn. unfold INT32_MAX. lia.
Defined.

Lemma batched_summary_has_no_failure_instance :
  exists st,
    demo_main echo 4 (files archive3) (command_line None) =
      Some {| how := Return 0; tables := Some st |} /\
    log st = [WarnNoDisambig] ++ [LogSummary 3 0] /\
    num_succeed st = 3 /\
    num_fail st = 0.
Proof.
  eexists. split; [reflexivity |].
  apply (batched_summary_has_no_failure
           unit unit (construct echo) 4%nat (files archive3)
           (command_line None) echo [WarnNoDisambig] archive3).
  - reflexivity.
  - discriminate.
  - reflexivity.
  - cbn. unfold INT32_MAX. lia.
Defined.

Lemma single_path_log_instance :
  exists st,
    demo_main echo 0 (files archive3) (command_line (Some 1)) =
      Some {| how := Return 0; tables := Some st |} /\
    log st = [WarnNoDisambig] ++ warnings_of echo archive3 ++
             [LogSummary (num_succeed st) (num_fail st)] /\
    (Z.of_nat (length archive3) <= INT32_MAX ->
     Z.of_nat (length (warnings_of echo archive3)) <= num_fail st).
Proof.
  apply (single_path_log
           unit unit (construct echo) 0%nat (files archive3)
           (command_line (Some 1)) echo [WarnNoDisambig] archive3);
    reflexivity.
Defined.

Lemma batch_is_the_next_batch_size_entries_instance :
  batch_keys 2 (initial_state archive3 []) = ["k1"; "k2"]%string /\
  batch_grammars 2 (initial_state archive3 []) = [one_state; empty_fst] /\
  snd (fill_batch 2 archive3 [] []) = [("k3"%string, two_states)] /\
  length (batch_grammars 2 (initial_state archive3 [])) = 2%nat.
Proof.
  apply (batch_is_the_next_batch_size_entries
           2 (initial_state archive3 [])).
  vm_compute. discriminate.
Defined.

Lemma empty_archive_run_instance :
  demo_main echo 1 (files []) (command_line (Some 0)) =
    Some {| how := Return 0;
            tables := Some (log_summary
                              (initial_state [] [WarnNoDisambig])) |} /\
  log_summary (initial_state [] [WarnNoDisambig]) =
    {| fst_reader := []; fst_writer := []; num_succeed := 0;
       num_fail := 0; log := [WarnNoDisambig] ++ [LogSummary 0 0] |}.
Proof.
  apply (empty_archive_run
           unit unit (construct echo) 1%nat (files [])
           (command_line (Some 0)) echo [WarnNoDisambig]).
  - reflexivity.
  - lia.
Defined.

Lemma cannot_set_up_ends_run_early_instance :
  exists t,
    demo_main echo 0 (files archive3)
              {| opt_transition_scale := None; opt_self_loop_scale := None;
                 opt_batch_size := None; opt_read_disambig_syms := None;
                 positional := ["tree"; "1.mdl"]%string |} =
      Some {| how := t; tables := None |} /\
    exit_status t <> 0 /\
    (t = Exit 1 \/ t = Return (-1)) /\
    (2%nat <> 5%nat -> t = Exit 1).
Proof.
  apply (cannot_set_up_ends_run_early
           unit unit (construct echo) 0%nat (files archive3)
           {| opt_transition_scale := None; opt_self_loop_scale := None;
              opt_batch_size := None; opt_read_disambig_syms := None;
              positional := ["tree"; "1.mdl"]%string |}).
  left. cbn. lia.
Defined.

Lemma small_archive_is_one_batch_instance :
  exists st,
    demo_main echo 2 (files archive3) (command_line None) =
      Some {| how := Return 0; tables := Some st |} /\
    fst_writer st =
      combine (keys_of archive3) [one_state; empty_fst; two_states].
Proof.
  apply (small_archive_is_one_batch
           unit unit (construct echo) 2%nat (files archive3)
           (command_line None) echo [WarnNoDisambig] archive3
           [one_state; empty_fst; two_states]).
  - reflexivity.
  - discriminate.
  - vm_compute. split; discriminate.
  - lia.
  - reflexivity.
  - reflexivity.
Defined.

End FurtherInstances.

(** ** What a set-up that succeeds has done *)

Section SetupDone.

Variables ContextDependency TransitionModel : Type.
Variable TrainingGraphCompiler :
  TransitionModel -> ContextDependency -> VectorFst -> list Z ->
  TrainingGraphCompilerOptions -> Compiler.

(** X11.  When the set-up succeeds, the compiler was built from the tree
    read from the first argument, the model read from the second, the
    lexicon read from the third, the disambiguation symbols and the options
    of the command line, and the input archive is the one the fourth
    argument names.  The log holds the warning about disambiguation symbols
    exactly when the compiler was given none, which is always so when no
    file of symbols was named. *)
Theorem setup_builds_compiler_from_arguments :
  forall fs cl gc log0 archive,
    setup ContextDependency TransitionModel TrainingGraphCompiler fs cl =
      inr (gc, log0, archive) ->
    exists ctx_dep trans_model lex_fst disambig_syms,
      NumArgs cl = 5%nat /\
      read_tree fs (GetArg cl 1) = Some ctx_dep /\
      read_model fs (GetArg cl 2) = Some trans_model /\
      VectorFst_Read fs (GetArg cl 3) = Some lex_fst /\
      read_disambig_syms ContextDependency TransitionModel fs cl =
        Some disambig_syms /\
      gc = TrainingGraphCompiler trans_model ctx_dep lex_fst disambig_syms
                                 (gopts_of cl) /\
      archive = read_archive fs (GetArg cl 4) /\
      (disambig_syms = [] <-> log0 = [WarnNoDisambig]) /\
      (disambig_syms <> [] <-> log0 = []) /\
      (disambig_rxfilename_of cl = EmptyString -> disambig_syms = []).
Proof.
  intros fs cl gc log0 archive. unfold setup.
  destruct (Nat.eqb_spec (NumArgs cl) 5) as [Hargs | Hargs]; cbn [negb];
    [| discriminate].
  destruct (read_tree fs (GetArg cl 1)) as [ctx_dep |]; [| discriminate].
  destruct (read_model fs (GetArg cl 2)) as [trans_model |];
    [| discriminate].
  destruct (negb (ifstream_good fs (GetArg cl 3))); [discriminate |].
  destruct (VectorFst_Read fs (GetArg cl 3)) as [lex_fst |];
    [| discriminate].
  destruct (read_disambig_syms _ _ fs cl) as [syms |] eqn:Hsyms;
    [| discriminate].
  intros [= <- <- <-].
  exists ctx_dep, trans_model, lex_fst, syms.
  repeat (split; [reflexivity |]).
  assert (Hnamed : disambig_rxfilename_of cl = EmptyString -> syms = []).
  { intros Hname. unfold read_disambig_syms in Hsyms.
    rewrite Hname in Hsyms. cbn in Hsyms. congruence. }
  destruct syms as [| sym syms]; repeat split; intros; try reflexivity;
    try discriminate; try congruence; auto.
Qed.

End SetupDone.

Lemma setup_builds_compiler_from_arguments_instance :
  exists ctx_dep trans_model lex_fst disambig_syms,
    NumArgs (Examples.command_line None) = 5%nat /\
    read_tree (Examples.files Examples.archive3)
      (GetArg (Examples.command_line None) 1) = Some ctx_dep /\
    read_model (Examples.files Examples.archive3)
      (GetArg (Examples.command_line None) 2) = Some trans_model /\
    VectorFst_Read (Examples.files Examples.archive3)
      (GetArg (Examples.command_line None) 3) = Some lex_fst /\
    read_disambig_syms unit unit (Examples.files Examples.archive3)
      (Examples.command_line None) = Some disambig_syms /\
    Examples.echo =
      Examples.construct Examples.echo trans_model ctx_dep lex_fst
        disambig_syms (gopts_of (Examples.command_line None)) /\
    Examples.archive3 =
      read_archive (Examples.files Examples.archive3)
        (GetArg (Examples.command_line None) 4) /\
    (disambig_syms = [] <-> [WarnNoDisambig] = [WarnNoDisambig]) /\
    (disambig_syms <> [] <-> [WarnNoDisambig] = []) /\
    (disambig_rxfilename_of (Examples.command_line None) = EmptyString ->
     disambig_syms = []).
Proof.
  apply (setup_builds_compiler_from_arguments
           unit unit (Examples.construct Examples.echo)
           (Examples.files Examples.archive3) (Examples.command_line None)
           Examples.echo [WarnNoDisambig] Examples.archive3).
  reflexivity.
Defined.
